(** * MelodyFlow: piano-roll editing and transport, verified against the source

    A shallow embedding of the TypeScript sources

      - [constants.ts], [types.ts]
      - [components/PianoRoll.tsx]  (geometry, note drag)
      - [App.tsx]                   (transport, note store, upload)
      - [services/geminiService.ts] (hydration of the transcription reply)

    Conventions of the embedding.

    - A JavaScript [number] is an exact rational of [Q].  Every quantity the
      statements below speak about (pixels, seconds, semitones) is finite, and
      the operations involved are [+], [-], [*], [/], [Math.max], [Math.min]
      and [Math.round]; rounding error, NaN and the infinities of IEEE
      doubles are outside the model.  Results on numbers are stated up to
      [Qeq] ([==]).
    - React state lives in a record; a handler is a function from the state
      of the render it was created in to the next state, together with the
      list of effects it performed on the browser (alerts, audio nodes,
      animation frames, service calls).
    - A value that may be [null] is an [option]. *)

From Stdlib Require Import QArith Qminmax Qround ZArith List String Bool Lia.
From Stdlib Require Import DecimalString Lqa DecimalN Ascii NArith.
Import ListNotations.

Local Open Scope Q_scope.

(* ------------------------------------------------------------------ *)
(** ** JavaScript operators on numbers and strings *)

Module Js.

Local Open Scope string_scope.

(** [Math.floor] *)
Definition floor (x : Q) : Z := Qfloor x.

(** The integer part, rounded towards zero. *)
Definition trunc (x : Q) : Z := if Qle_bool 0 x then Qfloor x else Qceiling x.

(** [a % b]: the remainder has the sign of [a]. *)
Definition rem (a b : Q) : Q := a - b * inject_Z (trunc (a / b)).

(** An integer as a template literal or [toString()] prints it. *)
Definition toString (z : Z) : string := NilEmpty.string_of_int (Z.to_int z).

Fixpoint copies (n : nat) (c : Ascii.ascii) : string :=
  match n with
  | O => EmptyString
  | S k => String c (copies k c)
  end.

(** [s.padStart(targetLength, c)] for a one-character pad string. *)
Definition padStart (s : string) (targetLength : nat) (c : Ascii.ascii) : string :=
  copies (targetLength - String.length s) c ++ s.

(** [xs[i]]: [None] is [undefined], the value at an index that is not one of
    [0 .. xs.length - 1]. *)
Definition at_index (xs : list string) (i : Q) : option string :=
  if Qeq_bool (inject_Z (Qfloor i)) i && (0 <=? Qfloor i)%Z
  then nth_error xs (Z.to_nat (Qfloor i))
  else None.

(** A possibly undefined string inside a template literal. *)
Definition interpolate (o : option string) : string :=
  match o with
  | Some x => x
  | None => "undefined"
  end.

End Js.

(* ------------------------------------------------------------------ *)
(** ** constants.ts *)

Module Constants.

Definition MIN_MIDI : Q := 21.   (* A0 *)
Definition MAX_MIDI : Q := 108.  (* C8 *)
Definition DEFAULT_ZOOM_X : Q := 100.
Definition DEFAULT_ZOOM_Y : Q := 24.

Local Open Scope string_scope.

Definition NOTE_NAMES : list string :=
  ["C"; "C#"; "D"; "D#"; "E"; "F"; "F#"; "G"; "G#"; "A"; "A#"; "B"].

(** The two parts of the label: [NOTE_NAMES[midi % 12]] and
    [Math.floor(midi / 12) - 1]. *)
Definition note_of (midi : Q) : option string :=
  Js.at_index NOTE_NAMES (Js.rem midi 12).

Definition octave_of (midi : Q) : Z := (Js.floor (midi / 12) - 1)%Z.

Definition getNoteName (midi : Q) : string :=
  let note := note_of midi in
  let octave := octave_of midi in
  Js.interpolate note ++ Js.toString octave.

Definition isBlackKey (midi : Q) : bool :=
  let n := Js.rem midi 12 in
  Qeq_bool n 1 || Qeq_bool n 3 || Qeq_bool n 6 || Qeq_bool n 8 || Qeq_bool n 10.

End Constants.

(* ------------------------------------------------------------------ *)
(** ** types.ts *)

Module Types.

Record Note := mkNote {
  id        : string;
  midi      : Q;
  startTime : Q;
  duration  : Q;
  velocity  : Q;
  selected  : option bool   (* [selected?: boolean] *)
}.

Record AudioAnalysisResult := mkAnalysis {
  key   : string;
  scale : string;
  bpm   : Q;
  notes : list Note
}.

Inductive ToolMode := POINTER | PENCIL | CUT | ZOOM.

Definition ToolMode_eqb (a b : ToolMode) : bool :=
  match a, b with
  | POINTER, POINTER | PENCIL, PENCIL | CUT, CUT | ZOOM, ZOOM => true
  | _, _ => false
  end.

Record ViewState := mkView {
  zoomX   : Q;  (* pixels per second *)
  zoomY   : Q;  (* pixels per semitone *)
  scrollX : Q;
  scrollY : Q
}.

End Types.

(* ------------------------------------------------------------------ *)
(** ** The fragment of [Math] the sources use *)

Module JsMath.

Definition max (a b : Q) : Q := Qmax a b.
Definition min (a b : Q) : Q := Qmin a b.

(** [Math.round]: the nearest integer, a tie going towards +infinity. *)
Definition round (x : Q) : Z := Qfloor (x + (1 # 2)).

End JsMath.

(* ------------------------------------------------------------------ *)
(** ** components/PianoRoll.tsx *)

Module PianoRoll.

Import Constants Types.

(** The props the component reads.  The two callbacks [onNoteUpdate] and
    [onSelectionChange] are not functions here: a handler returns the list of
    callback invocations it made, in order, and the parent runs them. *)
Record Props := mkProps {
  notes       : list Note;
  duration    : Q;
  currentTime : Q;
  viewState   : ViewState;
  toolMode    : ToolMode
}.

Inductive Call :=
| onSelectionChange (selectedIds : list string)
| onNoteUpdate (updatedNote : Note).

(** [useState<{id, startX, startY, originalTime, originalMidi} | null>] *)
Record DragState := mkDrag {
  drag_id      : string;
  startX       : Q;
  startY       : Q;
  originalTime : Q;
  originalMidi : Q
}.

Record MouseEvent := mkMouse { clientX : Q; clientY : Q }.

Definition NOTE_HEIGHT (p : Props) : Q := zoomY (viewState p).
Definition PIXELS_PER_SECOND (p : Props) : Q := zoomX (viewState p).
Definition TOTAL_HEIGHT (p : Props) : Q := (MAX_MIDI - MIN_MIDI + 1) * NOTE_HEIGHT p.

(** [notes.find(n => n.id === i)] *)
Definition find_note (ns : list Note) (i : string) : option Note :=
  List.find (fun n => String.eqb (id n) i) ns.

(** [{...updatedNote, startTime: newTime, midi: newMidi}] *)
Definition moved (n : Note) (newTime newMidi : Q) : Note :=
  mkNote (id n) newMidi newTime (Types.duration n) (velocity n) (selected n).

Definition handleNoteMouseDown (p : Props) (dragState : option DragState)
    (e : MouseEvent) (note : Note) : option DragState * list Call :=
  if ToolMode_eqb (toolMode p) POINTER then
    (Some {| drag_id := id note;
             startX := clientX e;
             startY := clientY e;
             originalTime := startTime note;
             originalMidi := midi note |},
     [onSelectionChange [id note]])
  else (dragState, []).

Definition handleMouseMove (p : Props) (dragState : option DragState)
    (e : MouseEvent) : list Call :=
  match dragState with
  | Some d =>
    if ToolMode_eqb (toolMode p) POINTER then
      let dx := clientX e - startX d in
      let dy := clientY e - startY d in
      let timeDelta := dx / PIXELS_PER_SECOND p in
      let midiDelta := - inject_Z (JsMath.round (dy / NOTE_HEIGHT p)) in
      let newTime := JsMath.max 0 (originalTime d + timeDelta) in
      let newMidi :=
        JsMath.min MAX_MIDI (JsMath.max MIN_MIDI (originalMidi d + midiDelta)) in
      match find_note (notes p) (drag_id d) with
      | Some updatedNote => [onNoteUpdate (moved updatedNote newTime newMidi)]
      | None => []
      end
    else []
  | None => []
  end.

Definition handleMouseUp : option DragState := None.

(** [handleScroll]: the grid container's scroll offsets are mirrored into
    the view state. *)
Definition handleScroll (scrollLeft scrollTop : Q) (prev : ViewState) : ViewState :=
  {| zoomX := zoomX prev; zoomY := zoomY prev;
     scrollX := scrollLeft; scrollY := scrollTop |}.

(** *** Vertical geometry *)

(** Style of a note block inside the grid canvas:
    [top = (MAX_MIDI - note.midi) * NOTE_HEIGHT],
    [left = note.startTime * PIXELS_PER_SECOND],
    [width = note.duration * PIXELS_PER_SECOND]. *)
Definition note_top (p : Props) (note : Note) : Q :=
  (MAX_MIDI - midi note) * NOTE_HEIGHT p.
Definition note_left (p : Props) (note : Note) : Q :=
  startTime note * PIXELS_PER_SECOND p.
Definition note_width (p : Props) (note : Note) : Q :=
  Types.duration note * PIXELS_PER_SECOND p.

(** The canvas is the content of the scroll container: a point at content
    ordinate [y] is shown at [y - scrollTop], and [handleScroll] keeps
    [viewState.scrollY] equal to [scrollTop]. *)
Definition note_pixelY (p : Props) (note : Note) : Q :=
  note_top p note - scrollY (viewState p).

(** The key column: a block positioned at [top: -viewState.scrollY] holding
    [Array.from({length: MAX_MIDI - MIN_MIDI + 1})] rows; row [i] is the key
    [MAX_MIDI - i] and has [height: NOTE_HEIGHT]. *)
Definition key_count : nat := Z.to_nat (Qfloor (MAX_MIDI - MIN_MIDI + 1)).

Record KeyRow := mkRow { row_midi : Q; row_height : Q }.

Definition key_rows (p : Props) : list KeyRow :=
  map (fun i => {| row_midi := MAX_MIDI - inject_Z (Z.of_nat i);
                   row_height := NOTE_HEIGHT p |})
      (seq 0 key_count).

Definition key_column_top (p : Props) : Q := - scrollY (viewState p).

(** Block layout: the rows are stacked, each below the previous ones. *)
Fixpoint stacked (rows : list KeyRow) (y : Q) : list (KeyRow * Q) :=
  match rows with
  | [] => []
  | r :: rest => (r, y) :: stacked rest (y + row_height r)
  end.

Definition key_layout (p : Props) : list (KeyRow * Q) :=
  stacked (key_rows p) (key_column_top p).

(** Ordinate of the row of key [m], if the column has such a row. *)
Definition key_pixelY (p : Props) (m : Z) : option Q :=
  option_map snd
    (List.find (fun ry => Qeq_bool (row_midi (fst ry)) (inject_Z m)) (key_layout p)).

(** *** Horizontal geometry and the look of a note block *)



(** [width: Math.max(width, 4)], [height: NOTE_HEIGHT - 2] *)
Definition shown_width (p : Props) (note : Note) : Q :=
  JsMath.max (note_width p note) 4.
Definition shown_height (p : Props) : Q := NOTE_HEIGHT p - 2.

(** [NOTE_HEIGHT > 16 && width > 30]: whether the block carries its name. *)
Definition label_shown (p : Props) (note : Note) : bool :=
  negb (Qle_bool (NOTE_HEIGHT p) 16) && negb (Qle_bool (note_width p note) 30).

End PianoRoll.

(* ------------------------------------------------------------------ *)
(** ** The browser objects [App.tsx] touches *)

Module Web.

Inductive ContextState := suspended | running | closed.

(** An [AudioContext].  Its hardware clock [currentTime] is not a field: the
    handlers that read it take the reading as the argument [now]. *)
Record AudioContext := mkContext { state : ContextState }.

Record AudioBuffer := mkBuffer { duration : Q }.

Record AudioBufferSourceNode := mkSource { buffer : AudioBuffer }.

Record File := mkFile { name : string; size : N; type : string }.

(** What a handler does to the world outside React state. *)
Inductive Effect :=
| alert (msg : string)
| console_error (msg : string)
| resume
| source_start (when offset : Q)
| source_stop
| requestAnimationFrame (handle : nat)
| cancelAnimationFrame (handle : nat)
| call_decodeAudio (file : File)
| call_fileToBase64 (file : File)
| call_analyzeAudioWithGemini (base64Audio mimeType : string).

End Web.

(* ------------------------------------------------------------------ *)
(** ** App.tsx: state *)

Module AppState.

Import Types Web.

(** The [useState] cells and the [useRef] cells of [App]. *)
Record State := mkState {
  audioContext      : option AudioContext;
  audioBuffer       : option AudioBuffer;
  fileName          : option string;
  isAnalyzing       : bool;
  loadingMessage    : string;
  analysis          : option AudioAnalysisResult;
  isPlaying         : bool;
  currentTime       : Q;
  startTimeRef      : Q;
  sourceNodeRef     : option AudioBufferSourceNode;
  animationFrameRef : nat;
  toolMode          : ToolMode;
  viewState         : ViewState
}.

(** A command: runs on the pending state, yields a value, the next pending
    state and the effects performed, oldest first. *)
Definition Cmd (A : Type) : Type := State -> A * State * list Effect.

Definition ret {A} (a : A) : Cmd A := fun st => (a, st, []).

Definition bind {A B} (c : Cmd A) (k : A -> Cmd B) : Cmd B :=
  fun st =>
    let '(a, st1, e1) := c st in
    let '(b, st2, e2) := k a st1 in
    (b, st2, e1 ++ e2).

Definition get : Cmd State := fun st => (st, st, []).
Definition put (st' : State) : Cmd unit := fun _ => (tt, st', []).
Definition emit (e : Effect) : Cmd unit := fun st => (tt, st, [e]).
Definition skip : Cmd unit := ret tt.

Declare Scope cmd_scope.
Delimit Scope cmd_scope with cmd.
Notation "x <- c ;; k" := (bind c (fun x => k))
  (at level 61, c at next level, right associativity) : cmd_scope.
Notation "c ;; k" := (bind c (fun _ => k))
  (at level 61, right associativity) : cmd_scope.

Local Open Scope cmd_scope.

Definition modify (f : State -> State) : Cmd unit := st <- get ;; put (f st).

(** The setters. *)
Definition setAudioContext v := modify (fun s =>
  mkState v (audioBuffer s) (fileName s) (isAnalyzing s) (loadingMessage s)
    (analysis s) (isPlaying s) (currentTime s) (startTimeRef s)
    (sourceNodeRef s) (animationFrameRef s) (toolMode s) (viewState s)).
Definition setAudioBuffer v := modify (fun s =>
  mkState (audioContext s) v (fileName s) (isAnalyzing s) (loadingMessage s)
    (analysis s) (isPlaying s) (currentTime s) (startTimeRef s)
    (sourceNodeRef s) (animationFrameRef s) (toolMode s) (viewState s)).
Definition setFileName v := modify (fun s =>
  mkState (audioContext s) (audioBuffer s) v (isAnalyzing s) (loadingMessage s)
    (analysis s) (isPlaying s) (currentTime s) (startTimeRef s)
    (sourceNodeRef s) (animationFrameRef s) (toolMode s) (viewState s)).
Definition setIsAnalyzing v := modify (fun s =>
  mkState (audioContext s) (audioBuffer s) (fileName s) v (loadingMessage s)
    (analysis s) (isPlaying s) (currentTime s) (startTimeRef s)
    (sourceNodeRef s) (animationFrameRef s) (toolMode s) (viewState s)).
Definition setLoadingMessage v := modify (fun s =>
  mkState (audioContext s) (audioBuffer s) (fileName s) (isAnalyzing s) v
    (analysis s) (isPlaying s) (currentTime s) (startTimeRef s)
    (sourceNodeRef s) (animationFrameRef s) (toolMode s) (viewState s)).
Definition with_analysis v (s : State) : State :=
  mkState (audioContext s) (audioBuffer s) (fileName s) (isAnalyzing s)
    (loadingMessage s) v (isPlaying s) (currentTime s) (startTimeRef s)
    (sourceNodeRef s) (animationFrameRef s) (toolMode s) (viewState s).
Definition setAnalysis v := modify (with_analysis v).
Definition setIsPlaying v := modify (fun s =>
  mkState (audioContext s) (audioBuffer s) (fileName s) (isAnalyzing s)
    (loadingMessage s) (analysis s) v (currentTime s) (startTimeRef s)
    (sourceNodeRef s) (animationFrameRef s) (toolMode s) (viewState s)).
Definition setCurrentTime v := modify (fun s =>
  mkState (audioContext s) (audioBuffer s) (fileName s) (isAnalyzing s)
    (loadingMessage s) (analysis s) (isPlaying s) v (startTimeRef s)
    (sourceNodeRef s) (animationFrameRef s) (toolMode s) (viewState s)).
Definition set_startTimeRef v := modify (fun s =>
  mkState (audioContext s) (audioBuffer s) (fileName s) (isAnalyzing s)
    (loadingMessage s) (analysis s) (isPlaying s) (currentTime s) v
    (sourceNodeRef s) (animationFrameRef s) (toolMode s) (viewState s)).
Definition set_sourceNodeRef v := modify (fun s =>
  mkState (audioContext s) (audioBuffer s) (fileName s) (isAnalyzing s)
    (loadingMessage s) (analysis s) (isPlaying s) (currentTime s)
    (startTimeRef s) v (animationFrameRef s) (toolMode s) (viewState s)).
Definition set_animationFrameRef v := modify (fun s =>
  mkState (audioContext s) (audioBuffer s) (fileName s) (isAnalyzing s)
    (loadingMessage s) (analysis s) (isPlaying s) (currentTime s)
    (startTimeRef s) (sourceNodeRef s) v (toolMode s) (viewState s)).
Definition setToolMode v := modify (fun s =>
  mkState (audioContext s) (audioBuffer s) (fileName s) (isAnalyzing s)
    (loadingMessage s) (analysis s) (isPlaying s) (currentTime s)
    (startTimeRef s) (sourceNodeRef s) (animationFrameRef s) v (viewState s)).
Definition setViewState v := modify (fun s =>
  mkState (audioContext s) (audioBuffer s) (fileName s) (isAnalyzing s)
    (loadingMessage s) (analysis s) (isPlaying s) (currentTime s)
    (startTimeRef s) (sourceNodeRef s) (animationFrameRef s) (toolMode s) v).

(** A handler is a closure of one render: it reads the [useState] cells of
    that render ([s]) and writes to the pending state; [useRef] cells are read
    from the pending state.  An event runs the handler of the current render. *)
Definition Handler : Type := State -> Cmd unit.

Definition run (h : Handler) (s : State) : State * list Effect :=
  let '(_, s', es) := h s s in (s', es).

Definition next (h : Handler) (s : State) : State := fst (run h s).
Definition effects (h : Handler) (s : State) : list Effect := snd (run h s).

End AppState.

(* ------------------------------------------------------------------ *)
(** ** App.tsx: handlers *)

Module App.

Import Types Web AppState.
Local Open Scope cmd_scope.
Local Open Scope string_scope.

(** *** Transport logic *)

(** [play]; [now] is the reading of [audioContext.currentTime]. *)
Definition play (now : Q) : Handler := fun s =>
  match audioBuffer s, audioContext s with
  | Some audioBuffer, Some audioContext =>
    (match state audioContext with
     | suspended => emit resume
     | _ => skip
     end) ;;
    let source := {| buffer := audioBuffer |} in
    let offset := currentTime s in
    emit (source_start 0 offset) ;;
    set_startTimeRef (now - offset) ;;
    set_sourceNodeRef (Some source) ;;
    setIsPlaying true
  | _, _ => skip
  end.

Definition stop : Handler := fun _ =>
  r <- get ;;
  (match sourceNodeRef r with
   | Some _ => emit source_stop ;; set_sourceNodeRef None
   | None => skip
   end) ;;
  setIsPlaying false ;;
  r <- get ;;
  emit (cancelAnimationFrame (animationFrameRef r)).

Definition togglePlayPause (now : Q) : Handler := fun s =>
  if isPlaying s then stop s else play now s.

Definition handleStop : Handler := fun s =>
  stop s ;;
  setCurrentTime 0.

(** *** Animation loop *)

(** The frame callback [loop] of the [useEffect]; [now] is the reading of
    the hardware clock and [handle] what [requestAnimationFrame] returns. *)
Definition loop (now : Q) (handle : nat) : Handler := fun s =>
  match isPlaying s, audioContext s with
  | true, Some _ =>
    r <- get ;;
    let trackTime := now - startTimeRef r in
    match audioBuffer s with
    | Some audioBuffer =>
      if Qle_bool (duration audioBuffer) trackTime then handleStop s
      else
        setCurrentTime trackTime ;;
        emit (requestAnimationFrame handle) ;;
        set_animationFrameRef handle
    | None =>
      setCurrentTime trackTime ;;
      emit (requestAnimationFrame handle) ;;
      set_animationFrameRef handle
    end
  | _, _ => skip
  end.

(** A run of animation frames, oldest first, each with the clock reading
    and the handle of the frame it requests. *)
Definition frames (ts : list (Q * nat)) (s : State) : State :=
  fold_left (fun r t => next (loop (fst t) (snd t)) r) ts s.

(** Body and cleanup of the [useEffect(..., [isPlaying, audioContext,
    audioBuffer])]. *)
Definition effect_body (handle : nat) : Handler := fun s =>
  if isPlaying s then
    emit (requestAnimationFrame handle) ;; set_animationFrameRef handle
  else skip.

Definition effect_cleanup : Handler := fun _ =>
  r <- get ;; emit (cancelAnimationFrame (animationFrameRef r)).

(** What the transport is asked to do: the two buttons of the toolbar
    ([onPlayPause={togglePlayPause}], [onStop={handleStop}]) and the frames
    the browser runs ([requestAnimationFrame(loop)]). *)
Inductive Action :=
| PressPlayPause (now : Q)
| PressStop
| Frame (now : Q) (handle : nat).

Definition act (a : Action) : Handler :=
  match a with
  | PressPlayPause now => togglePlayPause now
  | PressStop => handleStop
  | Frame now handle => loop now handle
  end.

(** A run of such actions, oldest first. *)
Definition session (acts : list Action) (s : State) : State :=
  fold_left (fun r a => next (act a) r) acts s.

(** *** Note editing logic *)

(** [{...analysis, notes: ns}] *)
Definition with_notes (ns : list Note) (analysis : AudioAnalysisResult)
    : AudioAnalysisResult :=
  {| key := key analysis; scale := scale analysis; bpm := bpm analysis;
     notes := ns |}.

(** [n => n.id === updatedNote.id ? updatedNote : n] *)
Definition put_note (updatedNote n : Note) : Note :=
  if String.eqb (id n) (id updatedNote) then updatedNote else n.

Definition updateNote (updatedNote : Note) : Handler := fun s =>
  match analysis s with
  | None => skip
  | Some analysis =>
    setAnalysis (Some (with_notes (map (put_note updatedNote) (notes analysis))
                                  analysis))
  end.

(** [selectedIds.includes(i)] *)
Definition includes (selectedIds : list string) (i : string) : bool :=
  existsb (fun x => String.eqb x i) selectedIds.

(** [n => ({...n, selected: selectedIds.includes(n.id)})] *)
Definition flag (selectedIds : list string) (n : Note) : Note :=
  mkNote (id n) (midi n) (startTime n) (Types.duration n) (velocity n)
         (Some (includes selectedIds (id n))).

Definition handleSelectionChange (selectedIds : list string) : Handler := fun s =>
  match analysis s with
  | None => skip
  | Some analysis =>
    setAnalysis (Some (with_notes (map (flag selectedIds) (notes analysis))
                                  analysis))
  end.

(** [analysis?.notes.filter(n => n.selected).length || 0], the count shown
    in the footer. *)
Definition is_selected (n : Note) : bool :=
  match selected n with
  | Some true => true
  | _ => false
  end.

Definition selected_count (s : State) : nat :=
  match analysis s with
  | Some analysis => List.length (filter is_selected (notes analysis))
  | None => 0%nat
  end.

(** *** Audio file handling *)

Section Upload.

(** The collaborators of the upload: the constructor of the audio context,
    the two helpers of [services/audioUtils] and the transcription service.
    [None] is a rejected promise; the service also reports the progress
    messages it passed to [onProgress]. *)
Variable new_AudioContext : AudioContext.
Variable decodeAudio : File -> AudioContext -> option AudioBuffer.
Variable fileToBase64 : File -> option string.
Variable analyzeAudioWithGemini :
  string -> string -> list string * option AudioAnalysisResult.

Definition getAudioContext (s : State) : Cmd AudioContext :=
  match audioContext s with
  | None =>
    let ctx := new_AudioContext in
    setAudioContext (Some ctx) ;; ret ctx
  | Some audioContext => ret audioContext
  end.

Definition SIZE_LIMIT : N := 50 * 1024 * 1024.

Definition too_large_message : string :=
  "El archivo es demasiado grande (>50MB). Para grabaciones largas (hasta 30 min), por favor usa un formato comprimido como MP3.".

(** The [catch] block. *)
Definition on_error : Cmd unit :=
  emit (console_error "Failed to load/analyze:") ;;
  emit (alert "Error procesando audio. Revisa la consola y la clave API.").

Fixpoint report (msgs : list string) : Cmd unit :=
  match msgs with
  | [] => skip
  | m :: rest => setLoadingMessage m ;; report rest
  end.

(** [handleFileUpload], run to completion; [files] is [event.target.files]. *)
Definition handleFileUpload (files : option (list File)) : Handler := fun s =>
  match match files with Some fs => nth_error fs 0 | None => None end with
  | None => skip
  | Some file =>
    if (SIZE_LIMIT <? size file)%N then emit (alert too_large_message)
    else
      setFileName (Some (name file)) ;;
      setIsAnalyzing true ;;
      setLoadingMessage "Decodificando datos de audio..." ;;
      (ctx <- getAudioContext s ;;
       emit (call_decodeAudio file) ;;
       match decodeAudio file ctx with
       | None => on_error
       | Some buffer =>
         setAudioBuffer (Some buffer) ;;
         setLoadingMessage "Preparando audio para IA Gemini..." ;;
         emit (call_fileToBase64 file) ;;
         match fileToBase64 file with
         | None => on_error
         | Some base64 =>
           emit (call_analyzeAudioWithGemini base64 (type file)) ;;
           let '(msgs, result) := analyzeAudioWithGemini base64 (type file) in
           report msgs ;;
           match result with
           | None => on_error
           | Some result => setAnalysis (Some result)
           end
         end
       end) ;;
      setIsAnalyzing false
  end.

End Upload.

End App.

(* ------------------------------------------------------------------ *)
(** ** The piano roll mounted in the app *)

Module UI.

Import Types Web AppState.
Local Open Scope cmd_scope.

(** [App] state together with the [dragState] cell of the mounted
    [PianoRoll]. *)
Record Screen := mkScreen {
  app       : State;
  dragState : option PianoRoll.DragState
}.

(** [{analysis && audioBuffer && (<PianoRoll notes={analysis.notes} ... />)}] *)
Definition props (s : State) : option PianoRoll.Props :=
  match analysis s, audioBuffer s with
  | Some a, Some b =>
    Some (PianoRoll.mkProps (notes a) (duration b) (currentTime s)
                            (viewState s) (toolMode s))
  | _, _ => None
  end.

(** [onNoteUpdate={updateNote}], [onSelectionChange={handleSelectionChange}] *)
Definition callback (c : PianoRoll.Call) : Handler :=
  match c with
  | PianoRoll.onSelectionChange selectedIds => App.handleSelectionChange selectedIds
  | PianoRoll.onNoteUpdate updatedNote => App.updateNote updatedNote
  end.

(** The callbacks invoked during one event are closures of the same render. *)
Fixpoint callbacks (cs : list PianoRoll.Call) : Handler := fun s =>
  match cs with
  | [] => skip
  | c :: rest => callback c s ;; callbacks rest s
  end.

Definition noteMouseDown (e : PianoRoll.MouseEvent) (note : Note) (u : Screen) : Screen :=
  match props (app u) with
  | None => u
  | Some p =>
    let '(d, calls) := PianoRoll.handleNoteMouseDown p (dragState u) e note in
    {| app := next (callbacks calls) (app u); dragState := d |}
  end.

Definition mouseMove (e : PianoRoll.MouseEvent) (u : Screen) : Screen :=
  match props (app u) with
  | None => u
  | Some p =>
    {| app := next (callbacks (PianoRoll.handleMouseMove p (dragState u) e)) (app u);
       dragState := dragState u |}
  end.

Definition mouseUp (u : Screen) : Screen :=
  {| app := app u; dragState := PianoRoll.handleMouseUp |}.

(** A run of pointer moves, oldest first. *)
Definition mouseMoves (es : list PianoRoll.MouseEvent) (u : Screen) : Screen :=
  fold_left (fun v e => mouseMove e v) es u.

(** The screen during a drag [d] with the pointer tool: the piano roll is
    mounted on a clip [b], shown through [vs], and holds notes whose
    identifiers are [ids]. *)
Definition dragging (d : PianoRoll.DragState) (b : AudioBuffer) (vs : ViewState)
    (ids : list string) (u : Screen) : Prop :=
  dragState u = Some d
  /\ toolMode (app u) = POINTER
  /\ audioBuffer (app u) = Some b
  /\ viewState (app u) = vs
  /\ exists a, analysis (app u) = Some a /\ map id (notes a) = ids.

(** [ns'] holds the notes of [ns] in the same order, and only the notes
    identified by [i] may differ, in their pitch and start time. *)
Definition moved_only (i : string) (ns ns' : list Note) : Prop :=
  forall (j : nat) (n : Note),
    nth_error ns j = Some n ->
    exists n',
      nth_error ns' j = Some n'
      /\ id n' = id n
      /\ Types.duration n' = Types.duration n
      /\ velocity n' = velocity n
      /\ selected n' = selected n
      /\ (id n <> i -> midi n' = midi n /\ startTime n' = startTime n).

(** The screen differs from the app state [s0] holding the analysis [a0]
    only by notes of identifier [i] that moved. *)
Definition moved_from (i : string) (s0 : State) (a0 : AudioAnalysisResult)
    (u : Screen) : Prop :=
  exists a1,
    app u = with_analysis (Some a1) s0
    /\ key a1 = key a0 /\ scale a1 = scale a0 /\ bpm a1 = bpm a0
    /\ List.length (notes a1) = List.length (notes a0)
    /\ moved_only i (notes a0) (notes a1).

End UI.

(* ------------------------------------------------------------------ *)
(** ** services/geminiService.ts *)

Module GeminiService.

Local Open Scope string_scope.

#[local] Set Warnings "-register-all".

(** JavaScript values as [JSON.parse] produces them, and [undefined] for a
    property that is not there. *)
Inductive Value :=
| undefined
| null
| boolean (b : bool)
| number (q : Q)
| str (s : string)
| array (items : list Value)
| object (props : list (string * Value)).

Inductive Outcome (A : Type) :=
| Ok (a : A)
| Throw (message : string).
Arguments Ok {A} a.
Arguments Throw {A} message.

Definition lookup (props : list (string * Value)) (k : string) : Value :=
  match List.find (fun kv => String.eqb (fst kv) k) props with
  | Some kv => snd kv
  | None => undefined
  end.

(** [v.k] for a data property [k] (not [length], not a method). *)
Definition get (v : Value) (k : string) : Outcome Value :=
  match v with
  | undefined | null => Throw "TypeError: Cannot read properties"
  | object props => Ok (lookup props k)
  | _ => Ok undefined
  end.

Definition truthy (v : Value) : bool :=
  match v with
  | undefined | null => false
  | boolean b => b
  | number q => negb (Qeq_bool q 0)
  | str s => negb (String.eqb s "")
  | array _ | object _ => true
  end.

(** [v || d] *)
Definition or_else (v d : Value) : Value := if truthy v then v else d.

Definition decimal (n : N) : string := NilEmpty.string_of_uint (N.to_uint n).

Fixpoint indexed (i : nat) (items : list Value) : list (string * Value) :=
  match items with
  | [] => []
  | v :: rest => (decimal (N.of_nat i), v) :: indexed (S i) rest
  end.

Fixpoint chars (s : string) : list Value :=
  match s with
  | EmptyString => []
  | String c rest => str (String c EmptyString) :: chars rest
  end.

(** The own enumerable properties [{...n}] copies. *)
Definition spread (n : Value) : list (string * Value) :=
  match n with
  | object props => props
  | array items => indexed 0 items
  | str s => indexed 0 (chars s)
  | _ => []
  end.

Fixpoint assign (props : list (string * Value)) (k : string) (v : Value)
    : list (string * Value) :=
  match props with
  | [] => [(k, v)]
  | (k', v') :: rest =>
    if String.eqb k' k then (k', v) :: rest else (k', v') :: assign rest k v
  end.

(** The object the function returns. *)
Record Analysis := mkAnalysis {
  key   : Value;
  scale : Value;
  bpm   : Value;
  notes : list Value
}.

Section Service.

(** [process.env.API_KEY], the model call ([None]: the promise rejects;
    [Some text]: [response.text]), [JSON.parse] ([None]: it throws) and
    [Date.now()] as read in the callback of the note of a given index. *)
Variable API_KEY : option string.
Variable generateContent : string -> string -> option (option string).
Variable JSON_parse : string -> option Value.
Variable Date_now : nat -> N.

(** [{...n, id: `note-${index}-${Date.now()}`, selected: false}] *)
Definition hydrate (n : Value) (index : nat) : Value :=
  object
    (assign
       (assign (spread n) "id"
          (str ("note-" ++ decimal (N.of_nat index) ++ "-" ++ decimal (Date_now index))))
       "selected" (boolean false)).

Fixpoint hydrate_from (index : nat) (items : list Value) : list Value :=
  match items with
  | [] => []
  | n :: rest => hydrate n index :: hydrate_from (S index) rest
  end.

(** [data.notes.map((n, index) => ...)] *)
Definition map_notes (data : Value) : Outcome (list Value) :=
  match get data "notes" with
  | Throw m => Throw m
  | Ok (array items) => Ok (hydrate_from 0 items)
  | Ok undefined | Ok null => Throw "TypeError: Cannot read properties"
  | Ok _ => Throw "TypeError: data.notes.map is not a function"
  end.

(** The statements after [JSON.parse]. *)
Definition build (data : Value) : Outcome Analysis :=
  match map_notes data with
  | Throw m => Throw m
  | Ok notes =>
    match get data "key", get data "scale", get data "bpm" with
    | Ok k, Ok s, Ok b =>
      Ok {| key := or_else k (str "Desconocido");
            scale := or_else s (str "Desconocido");
            bpm := or_else b (number 120);
            notes := notes |}
    | Throw m, _, _ | _, Throw m, _ | _, _, Throw m => Throw m
    end
  end.

Definition falsy_string (s : option string) : bool :=
  match s with
  | None => true
  | Some t => String.eqb t ""
  end.

(** [analyzeAudioWithGemini]: the messages passed to [onProgress], oldest
    first, and how the promise settles. *)
Definition analyzeAudioWithGemini (base64Audio mimeType : string)
    : list string * Outcome Analysis :=
  if falsy_string API_KEY then
    ([], Throw "Falta la clave API. Por favor configura la variable de entorno API_KEY.")
  else
    let sent := ["Enviando audio al motor neural de Gemini..."] in
    match generateContent mimeType base64Audio with
    | None => (sent, Throw "generateContent")
    | Some text =>
      let seen := List.app sent ["Procesando resultados del análisis..."] in
      match text with
      | None => (seen, Throw "Respuesta vacía de la IA")
      | Some t =>
        if String.eqb t "" then (seen, Throw "Respuesta vacía de la IA")
        else
          match JSON_parse t with
          | None => (seen, Throw "SyntaxError")
          | Some data => (seen, build data)
          end
      end
    end.

End Service.

End GeminiService.

(* ------------------------------------------------------------------ *)
(** ** components/Toolbar.tsx *)

Module Toolbar.

Local Open Scope string_scope.

(** The three fields of the clock: [Math.floor(time / 60)],
    [Math.floor(time % 60)] and [Math.floor((time % 1) * 100)]. *)
Definition minutes (time : Q) : Z := Js.floor (time / 60).
Definition seconds (time : Q) : Z := Js.floor (Js.rem time 60).
Definition hundredths (time : Q) : Z := Js.floor (Js.rem time 1 * 100).

Definition two_digits (z : Z) : string := Js.padStart (Js.toString z) 2 (Ascii.ascii_of_nat 48).

Definition formatTime (time : Q) : string :=
  let m := minutes time in
  let s := seconds time in
  let ms := hundredths time in
  two_digits m ++ ":" ++ two_digits s ++ "." ++ two_digits ms.

End Toolbar.

(* ------------------------------------------------------------------ *)
(** ** Concrete inputs *)

Module Scenario.

Import Types Web AppState.
Local Open Scope string_scope.

(** The scenario of the specification: a 40-second clip with one note,
    shown at 100 px/s and 24 px/semitone. *)
Definition scenario_view : ViewState :=
  {| zoomX := 100; zoomY := 24; scrollX := 0; scrollY := 120 |}.

Definition scenario_note : Note :=
  mkNote "note-0-1700000000000" 60 5 2 (8 # 10) (Some false).

Definition scenario_props : PianoRoll.Props :=
  PianoRoll.mkProps [scenario_note] 40 0 scenario_view POINTER.

Definition scenario_analysis : AudioAnalysisResult :=
  {| key := "C Major"; scale := "Major"; bpm := 120; notes := [scenario_note] |}.

(** The app after that upload: stopped at the start of the clip. *)
Definition scenario_state : State :=
  {| audioContext := Some {| state := running |};
     audioBuffer := Some {| duration := 40 |};
     fileName := Some "clip.mp3";
     isAnalyzing := false;
     loadingMessage := "Procesando resultados del análisis...";
     analysis := Some scenario_analysis;
     isPlaying := false;
     currentTime := 0;
     startTimeRef := 0;
     sourceNodeRef := None;
     animationFrameRef := 0;
     toolMode := POINTER;
     viewState := scenario_view |}.

(** The app as it starts: nothing loaded. *)
Definition initial_state : State :=
  {| audioContext := None;
     audioBuffer := None;
     fileName := None;
     isAnalyzing := false;
     loadingMessage := "";
     analysis := None;
     isPlaying := false;
     currentTime := 0;
     startTimeRef := 0;
     sourceNodeRef := None;
     animationFrameRef := 0;
     toolMode := POINTER;
     viewState := {| zoomX := Constants.DEFAULT_ZOOM_X;
                     zoomY := Constants.DEFAULT_ZOOM_Y;
                     scrollX := 0; scrollY := 0 |} |}.

(** Playing, one tenth of a second before the end of the clip: playback
    began when the hardware clock read 10. *)
Definition late_state : State :=
  {| audioContext := Some {| state := running |};
     audioBuffer := Some {| duration := 40 |};
     fileName := Some "clip.mp3";
     isAnalyzing := false;
     loadingMessage := "Procesando resultados del análisis...";
     analysis := Some scenario_analysis;
     isPlaying := true;
     currentTime := 399 # 10;
     startTimeRef := 10;
     sourceNodeRef := Some {| buffer := {| duration := 40 |} |};
     animationFrameRef := 7;
     toolMode := POINTER;
     viewState := scenario_view |}.

(** A 60 MB upload, and collaborators that would all succeed. *)
Definition big_file : File :=
  {| name := "concert.wav"; size := 60 * 1024 * 1024; type := "audio/wav" |}.

Definition decode_ok (_ : File) (_ : AudioContext) : option AudioBuffer :=
  Some {| duration := 40 |}.
Definition base64_ok (_ : File) : option string := Some "UklGRg==".
Definition analyze_ok (_ _ : string) : list string * option AudioAnalysisResult :=
  (["Enviando audio al motor neural de Gemini...";
    "Procesando resultados del análisis..."], Some scenario_analysis).

(** A 40 MB upload. *)
Definition small_file : File :=
  {| name := "clip.mp3"; size := 40 * 1024 * 1024; type := "audio/mpeg" |}.

(** A reply of the transcription service that carries the note of the
    scenario and nothing else, and one that carries no notes. *)
Definition notes_only : GeminiService.Value :=
  GeminiService.object
    [("notes", GeminiService.array
        [GeminiService.object
           [("midi", GeminiService.number 60);
            ("startTime", GeminiService.number 5);
            ("duration", GeminiService.number 2);
            ("velocity", GeminiService.number (8 # 10))]])].

Definition no_notes : GeminiService.Value :=
  GeminiService.object
    [("key", GeminiService.str "C Major");
     ("scale", GeminiService.str "Major");
     ("bpm", GeminiService.number 120)].

Definition reply_with (data : GeminiService.Value) (_ : string)
    : option GeminiService.Value := Some data.

Definition model_answers (_ _ : string) : option (option string) :=
  Some (Some "{...}").

Definition scenario_screen : UI.Screen :=
  {| UI.app := scenario_state; UI.dragState := None |}.

(** Three notes, the last one flagged from an earlier selection. *)
Definition abc_analysis : AudioAnalysisResult :=
  {| key := "A Minor"; scale := "Minor"; bpm := 90;
     notes := [ mkNote "a" 57 0 1 (1 # 2) (Some false);
                mkNote "b" 60 1 1 (1 # 2) None;
                mkNote "c" 64 2 1 (1 # 2) (Some true) ] |}.

Definition abc_state : State := with_analysis (Some abc_analysis) scenario_state.

(** The same screen after the pencil tool was chosen. *)
Definition pencil_screen : UI.Screen :=
  {| UI.app := next (fun _ => setToolMode PENCIL) scenario_state;
     UI.dragState := None |}.

End Scenario.

(* ================================================================== *)
(** * Properties *)

(* ------------------------------------------------------------------ *)
(** ** Geometry of the piano roll *)

Module Geometry.

Import Constants Types PianoRoll.

Lemma inject_Z_succ (i : nat) :
  inject_Z (Z.of_nat (S i)) == inject_Z (Z.of_nat i) + 1.
Proof.
  rewrite Nat2Z.inj_succ. unfold Z.succ. rewrite inject_Z_plus. reflexivity.
Qed.

Lemma row_midi_hit (i : nat) (m : Z) :
  MAX_MIDI - inject_Z (Z.of_nat i) == inject_Z m <-> (Z.of_nat i = 108 - m)%Z.
Proof.
  unfold MAX_MIDI, Qeq, Qminus, Qplus, Qopp, inject_Z. cbn [Qnum Qden]. lia.
Qed.

(** In a column of rows of height [h] whose first row is the key
    [MAX_MIDI - start] and lies at [y0], the row of key [m] lies
    [108 - m - start] rows further down. *)
Lemma stacked_find (h : Q) (m : Z) :
  forall (k start : nat) (y0 : Q),
    (Z.of_nat start <= 108 - m < Z.of_nat start + Z.of_nat k)%Z ->
    exists r y,
      List.find (fun ry => Qeq_bool (row_midi (fst ry)) (inject_Z m))
        (stacked
           (map (fun i => {| row_midi := MAX_MIDI - inject_Z (Z.of_nat i);
                             row_height := h |}) (seq start k)) y0)
      = Some (r, y)
      /\ y == y0 + inject_Z (108 - m - Z.of_nat start) * h.
Proof.
  induction k as [|k IH]; intros start y0 Hrange.
  - lia.
  - cbn [seq map stacked List.find fst row_midi row_height].
    destruct (Qeq_bool (MAX_MIDI - inject_Z (Z.of_nat start)) (inject_Z m)) eqn:E.
    + apply Qeq_bool_iff, row_midi_hit in E.
      eexists _, _. split; [reflexivity|].
      replace (108 - m - Z.of_nat start)%Z with 0%Z by lia.
      change (inject_Z 0) with 0. ring.
    + assert (Hne : Z.of_nat start <> (108 - m)%Z).
      { intro Heq. apply row_midi_hit, Qeq_bool_iff in Heq. congruence. }
      destruct (IH (S start) (y0 + h)) as (r & y & Hfind & Hy); [lia|].
      exists r, y. split; [exact Hfind|].
      rewrite Hy.
      replace (108 - m - Z.of_nat start)%Z
        with ((108 - m - Z.of_nat (S start)) + 1)%Z by lia.
      rewrite inject_Z_plus. change (inject_Z 1) with 1. ring.
Qed.

Lemma key_pixelY_formula (p : Props) (m : Z) :
  (21 <= m <= 108)%Z ->
  exists y, key_pixelY p m = Some y
            /\ y == (108 - inject_Z m) * zoomY (viewState p) - scrollY (viewState p).
Proof.
  intros Hm.
  destruct (stacked_find (NOTE_HEIGHT p) m key_count 0 (key_column_top p))
    as (r & y & Hfind & Hy).
  { change (Z.of_nat key_count) with 88%Z. change (Z.of_nat 0) with 0%Z. lia. }
  exists y. split.
  - unfold key_pixelY, key_layout, key_rows. rewrite Hfind. reflexivity.
  - rewrite Hy. unfold key_column_top, NOTE_HEIGHT.
    change (Z.of_nat 0) with 0%Z. rewrite Z.sub_0_r.
    unfold Zminus. rewrite inject_Z_plus, inject_Z_opp.
    change (inject_Z 108) with 108. ring.
Qed.

Lemma note_pixelY_formula (p : Props) (note : Note) :
  note_pixelY p note
  == (108 - midi note) * zoomY (viewState p) - scrollY (viewState p).
Proof. unfold note_pixelY, note_top, NOTE_HEIGHT, MAX_MIDI. reflexivity. Qed.

Lemma pixel_row_decreasing (z s a b : Q) :
  0 < z -> a < b -> (108 - b) * z - s < (108 - a) * z - s.
Proof.
  intros Hz Hab.
  apply Qplus_lt_l. apply Qmult_lt_compat_r; [exact Hz|].
  apply Qplus_lt_r. apply Qopp_lt_compat. exact Hab.
Qed.

End Geometry.

Module GeometrySpec.

Import Constants Types PianoRoll Geometry.

(** C2.  For every pitch in [21,108], every [zoomY > 0] and every
    [scrollY >= 0], the vertical pixel coordinate of the pitch is
    [(108 - pitch) * zoomY - scrollY], both for a note block of the grid and
    for the row of the key column, and the coordinate is strictly decreasing
    in the pitch: a higher pitch is drawn higher on screen. *)
Theorem pixelY_of_pitch (p : Props) :
  0 < zoomY (viewState p) ->
  0 <= scrollY (viewState p) ->
  (forall note : Note,
      21 <= midi note <= 108 ->
      note_pixelY p note
      == (108 - midi note) * zoomY (viewState p) - scrollY (viewState p))
  /\ (forall m : Z,
      (21 <= m <= 108)%Z ->
      exists y, key_pixelY p m = Some y
                /\ y == (108 - inject_Z m) * zoomY (viewState p)
                        - scrollY (viewState p))
  /\ (forall lower higher : Note,
      21 <= midi lower -> midi lower < midi higher -> midi higher <= 108 ->
      note_pixelY p higher < note_pixelY p lower)
  /\ (forall (lower higher : Z) (y_lower y_higher : Q),
      (21 <= lower)%Z -> (lower < higher)%Z -> (higher <= 108)%Z ->
      key_pixelY p lower = Some y_lower ->
      key_pixelY p higher = Some y_higher ->
      y_higher < y_lower).
Proof.
  intros Hzoom Hscroll. split; [|split; [|split]].
  - intros note _. apply note_pixelY_formula.
  - intros m Hm. apply key_pixelY_formula; assumption.
  - intros lower higher _ Hlt _.
    rewrite !note_pixelY_formula. apply pixel_row_decreasing; assumption.
  - intros lower higher y_lower y_higher Hlo Hlt Hhi Hl Hh.
    destruct (key_pixelY_formula p lower) as (y1 & E1 & F1); [lia|].
    destruct (key_pixelY_formula p higher) as (y2 & E2 & F2); [lia|].
    rewrite Hl in E1. rewrite Hh in E2.
    injection E1 as <-. injection E2 as <-.
    rewrite F1, F2. apply pixel_row_decreasing; [assumption|].
    rewrite <- Zlt_Qlt. exact Hlt.
Qed.

Import Scenario.

Lemma pixelY_of_pitch_witness :
  note_pixelY scenario_props scenario_note == 1032
  /\ (exists y, key_pixelY scenario_props 60 = Some y /\ y == 1032)
  /\ (forall y y', key_pixelY scenario_props 60 = Some y ->
                   key_pixelY scenario_props 61 = Some y' -> y' < y).
Proof.
  destruct (pixelY_of_pitch scenario_props) as (Hnote & Hkey & _ & Hdec).
  - reflexivity.
  - discriminate.
  - split; [|split].
    + rewrite Hnote; [reflexivity | split; discriminate].
    + destruct (Hkey 60%Z) as (y & Hy & Hval); [lia|].
      exists y. split; [exact Hy|]. rewrite Hval. reflexivity.
    + intros y y'. apply Hdec; lia.
Defined.

End GeometrySpec.

(* ------------------------------------------------------------------ *)
(** ** The note store of [App] *)

Module NoteStore.

Import Types Web AppState App.

Lemma run_updateNote (s : State) (a : AudioAnalysisResult) (n : Note) :
  analysis s = Some a ->
  run (App.updateNote n) s
  = (with_analysis (Some (with_notes (map (put_note n) (notes a)) a)) s, []).
Proof. intros H. unfold run, App.updateNote. rewrite H. reflexivity. Qed.

Lemma run_handleSelectionChange (s : State) (a : AudioAnalysisResult) ids :
  analysis s = Some a ->
  run (App.handleSelectionChange ids) s
  = (with_analysis (Some (with_notes (map (flag ids) (notes a)) a)) s, []).
Proof. intros H. unfold run, App.handleSelectionChange. rewrite H. reflexivity. Qed.

Lemma run_without_analysis_updateNote (s : State) (n : Note) :
  analysis s = None -> run (App.updateNote n) s = (s, []).
Proof. intros H. unfold run, App.updateNote. rewrite H. reflexivity. Qed.

Lemma includes_In (ids : list string) (i : string) :
  App.includes ids i = true <-> In i ids.
Proof.
  unfold App.includes. rewrite existsb_exists. split.
  - intros (x & Hx & E). apply String.eqb_eq in E. subst. exact Hx.
  - intros H. exists i. split; [exact H | apply String.eqb_refl].
Qed.

Lemma put_note_id (u n : Note) : id (put_note u n) = id n.
Proof.
  unfold put_note. destruct (String.eqb (id n) (id u)) eqn:E; [|reflexivity].
  apply String.eqb_eq in E. symmetry. exact E.
Qed.

Lemma put_note_other (u n : Note) : id n <> id u -> put_note u n = n.
Proof.
  intros H. unfold put_note.
  destruct (String.eqb (id n) (id u)) eqn:E; [|reflexivity].
  apply String.eqb_eq in E. contradiction.
Qed.

Lemma put_note_same (u n : Note) : id n = id u -> put_note u n = u.
Proof.
  intros H. unfold put_note. rewrite H, String.eqb_refl. reflexivity.
Qed.

Lemma map_put_note_ids (u : Note) (ns : list Note) :
  map id (map (put_note u) ns) = map id ns.
Proof.
  rewrite map_map. apply map_ext. intros n. apply put_note_id.
Qed.

Lemma map_flag_ids (ids : list string) (ns : list Note) :
  map id (map (flag ids) ns) = map id ns.
Proof. rewrite map_map. apply map_ext. reflexivity. Qed.

(** [find] by identifier succeeds exactly on the identifiers present. *)
Lemma find_note_present (ns : list Note) (i : string) :
  In i (map id ns) ->
  exists n, PianoRoll.find_note ns i = Some n /\ id n = i /\ In n ns.
Proof.
  unfold PianoRoll.find_note.
  induction ns as [|n ns IH]; intros Hin; [destruct Hin|].
  cbn [List.find]. destruct (String.eqb (id n) i) eqn:E.
  - exists n. apply String.eqb_eq in E. repeat split; [exact E | left; reflexivity].
  - destruct Hin as [Hhd | Htl].
    + simpl in Hhd. rewrite Hhd, String.eqb_refl in E. discriminate.
    + destruct (IH Htl) as (m & Hf & Hid & Hm).
      exists m. repeat split; [exact Hf | exact Hid | right; exact Hm].
Qed.

End NoteStore.

Module NoteStoreSpec.

Import Types Web AppState App NoteStore Scenario.
Local Open Scope string_scope.

(** C5.  For every note collection and every list of ids, the selection
    operation replaces the selection wholesale: the collection keeps its
    notes, and afterwards a note's flag is [true] exactly when its id is a
    member of the list and [false] otherwise, whatever the flag was before. *)
Theorem select_replaces_selection
    (s : State) (a : AudioAnalysisResult) (selectedIds : list string) :
  analysis s = Some a ->
  exists a',
    analysis (next (handleSelectionChange selectedIds) s) = Some a'
    /\ map id (notes a') = map id (notes a)
    /\ forall n, In n (notes a') ->
         (selected n = Some true <-> In (id n) selectedIds)
         /\ (selected n = Some false <-> ~ In (id n) selectedIds).
Proof.
  intros Ha. unfold next. rewrite (run_handleSelectionChange s a _ Ha).
  eexists. split; [reflexivity|]. cbn [fst analysis with_analysis notes with_notes].
  split; [apply map_flag_ids|].
  intros n Hn. apply in_map_iff in Hn. destruct Hn as (n0 & <- & _).
  cbn [flag selected id].
  destruct (includes selectedIds (id n0)) eqn:E.
  - apply includes_In in E. split; split; intros H;
      try reflexivity; try exact E; try discriminate; contradiction.
  - assert (Hnot : ~ In (id n0) selectedIds).
    { intros Hin. apply includes_In in Hin. congruence. }
    split; split; intros H;
      try reflexivity; try exact Hnot; try discriminate; contradiction.
Qed.

Lemma select_replaces_selection_witness :
  exists a',
    analysis (next (handleSelectionChange ["a"; "b"]) abc_state) = Some a'
    /\ map id (notes a') = ["a"; "b"; "c"]
    /\ map selected (notes a') = [Some true; Some true; Some false].
Proof.
  destruct (select_replaces_selection abc_state abc_analysis ["a"; "b"])
    as (a' & Ha' & Hids & _); [reflexivity|].
  exists a'. split; [exact Ha'|]. split; [exact Hids|].
  vm_compute in Ha'. injection Ha' as <-. reflexivity.
Defined.

(** C6.  For every analysis result and every updated note, writing the
    note back by identifier keeps the length and the order of the
    collection, leaves every note whose id differs from the updated note's
    id as it was, and leaves key, scale and bpm as they were. *)
Theorem updateNote_frame
    (s : State) (a : AudioAnalysisResult) (updatedNote : Note) :
  analysis s = Some a ->
  exists a',
    analysis (next (updateNote updatedNote) s) = Some a'
    /\ List.length (notes a') = List.length (notes a)
    /\ map id (notes a') = map id (notes a)
    /\ (forall (i : nat) (n : Note),
           nth_error (notes a) i = Some n ->
           id n <> id updatedNote ->
           nth_error (notes a') i = Some n)
    /\ key a' = key a /\ scale a' = scale a /\ bpm a' = bpm a.
Proof.
  intros Ha. unfold next. rewrite (run_updateNote s a _ Ha).
  eexists. split; [reflexivity|]. cbn [fst analysis with_analysis notes with_notes].
  split; [apply length_map|].
  split; [apply map_put_note_ids|].
  split; [|repeat split].
  intros i n Hnth Hid.
  rewrite nth_error_map, Hnth. cbn [option_map].
  rewrite put_note_other; [reflexivity | exact Hid].
Qed.

Lemma updateNote_frame_witness :
  exists a',
    analysis (next (updateNote (mkNote "b" 62 (3 # 2) 1 (1 # 2) None)) abc_state)
    = Some a'
    /\ map id (notes a') = ["a"; "b"; "c"]
    /\ nth_error (notes a') 0 = Some (mkNote "a" 57 0 1 (1 # 2) (Some false))
    /\ nth_error (notes a') 2 = Some (mkNote "c" 64 2 1 (1 # 2) (Some true))
    /\ key a' = "A Minor" /\ bpm a' = 90.
Proof.
  destruct (updateNote_frame abc_state abc_analysis
              (mkNote "b" 62 (3 # 2) 1 (1 # 2) None))
    as (a' & Ha' & _ & Hids & Hrest & Hkey & _ & Hbpm); [reflexivity|].
  exists a'. split; [exact Ha'|]. split; [exact Hids|].
  split; [apply (Hrest 0%nat); [reflexivity | discriminate]|].
  split; [apply (Hrest 2%nat); [reflexivity | discriminate]|].
  split; [exact Hkey | exact Hbpm].
Defined.

End NoteStoreSpec.

(* ------------------------------------------------------------------ *)
(** ** Dragging a note *)

Module Drag.

Import Constants Types Web AppState App NoteStore UI.

Lemma next_callbacks_one (c : PianoRoll.Call) (s : State) :
  next (callbacks [c]) s = next (callback c) s.
Proof.
  unfold next, run. cbn [callbacks]. unfold bind, skip, ret.
  destruct (callback c s s) as [[x s'] es]. reflexivity.
Qed.

Lemma next_callbacks_nil (s : State) : next (callbacks []) s = s.
Proof. reflexivity. Qed.

(** Pointer down on a note with the pointer tool: the note becomes the
    selection and the drag records where the note and the pointer were. *)
Lemma noteMouseDown_pointer (u : Screen) a b (e : PianoRoll.MouseEvent) (note : Note) :
  analysis (app u) = Some a ->
  audioBuffer (app u) = Some b ->
  toolMode (app u) = POINTER ->
  noteMouseDown e note u
  = {| app := with_analysis
                (Some (with_notes (map (flag [id note]) (notes a)) a)) (app u);
       dragState := Some (PianoRoll.mkDrag (id note) (PianoRoll.clientX e)
                            (PianoRoll.clientY e) (startTime note) (midi note)) |}.
Proof.
  intros Ha Hb Ht. unfold noteMouseDown, props. rewrite Ha, Hb.
  unfold PianoRoll.handleNoteMouseDown. cbn [PianoRoll.toolMode]. rewrite Ht.
  cbn [ToolMode_eqb]. rewrite next_callbacks_one. cbn [callback].
  unfold next. rewrite (run_handleSelectionChange _ a _ Ha). reflexivity.
Qed.

(** One pointer move during a drag. *)
Lemma mouseMove_dragging (u : Screen) d b vs ids (e : PianoRoll.MouseEvent) :
  dragging d b vs ids u ->
  In (PianoRoll.drag_id d) ids ->
  exists a found,
    analysis (app u) = Some a
    /\ map id (notes a) = ids
    /\ PianoRoll.find_note (notes a) (PianoRoll.drag_id d) = Some found
    /\ id found = PianoRoll.drag_id d
    /\ mouseMove e u
       = {| app :=
              with_analysis
                (Some (with_notes
                   (map (put_note
                      (PianoRoll.moved found
                         (JsMath.max 0
                            (PianoRoll.originalTime d
                             + (PianoRoll.clientX e - PianoRoll.startX d) / zoomX vs))
                         (JsMath.min MAX_MIDI
                            (JsMath.max MIN_MIDI
                               (PianoRoll.originalMidi d
                                + - inject_Z (JsMath.round
                                    ((PianoRoll.clientY e - PianoRoll.startY d)
                                     / zoomY vs)))))))
                      (notes a)) a))
                (app u);
            dragState := Some d |}.
Proof.
  intros (Hd & Ht & Hb & Hv & a & Ha & Hids) Hin.
  rewrite <- Hids in Hin.
  destruct (find_note_present _ _ Hin) as (found & Hfind & Hid & _).
  exists a, found. repeat split; try assumption.
  unfold mouseMove, props. rewrite Ha, Hb, Hd.
  unfold PianoRoll.handleMouseMove.
  cbn [PianoRoll.toolMode PianoRoll.notes PianoRoll.viewState
       PianoRoll.NOTE_HEIGHT PianoRoll.PIXELS_PER_SECOND].
  rewrite Ht. cbn [ToolMode_eqb]. rewrite Hfind.
  rewrite next_callbacks_one. cbn [callback].
  unfold next. rewrite (run_updateNote _ a _ Ha).
  unfold PianoRoll.NOTE_HEIGHT, PianoRoll.PIXELS_PER_SECOND.
  cbn [PianoRoll.viewState fst]. rewrite Hv. reflexivity.
Qed.

Lemma mouseMove_keeps_dragging (u : Screen) d b vs ids e :
  dragging d b vs ids u ->
  In (PianoRoll.drag_id d) ids ->
  dragging d b vs ids (mouseMove e u).
Proof.
  intros Hdrag Hin.
  destruct (mouseMove_dragging u d b vs ids e Hdrag Hin)
    as (a & found & Ha & Hids & _ & Hid & ->).
  destruct Hdrag as (_ & Ht & Hb & Hv & _).
  unfold dragging. cbn [dragState app toolMode audioBuffer viewState
                        with_analysis analysis].
  repeat split; try assumption.
  eexists. split; [reflexivity|].
  cbn [notes with_notes]. rewrite map_put_note_ids. exact Hids.
Qed.

Lemma mouseMoves_keep_dragging d b vs ids (es : list PianoRoll.MouseEvent) :
  In (PianoRoll.drag_id d) ids ->
  forall u, dragging d b vs ids u -> dragging d b vs ids (mouseMoves es u).
Proof.
  intros Hin. unfold mouseMoves.
  induction es as [|e es IH]; intros u Hu; [exact Hu|].
  cbn [fold_left]. apply IH. apply mouseMove_keeps_dragging; assumption.
Qed.

(** A stale drag under another tool moves nothing. *)
Lemma mouseMove_other_tool (u : Screen) (e : PianoRoll.MouseEvent) :
  toolMode (app u) <> POINTER -> mouseMove e u = u.
Proof.
  intros Ht. unfold mouseMove. destruct (props (app u)) as [p|] eqn:Hp; [|reflexivity].
  assert (Hmode : PianoRoll.toolMode p = toolMode (app u)).
  { unfold props in Hp. destruct (analysis (app u)), (audioBuffer (app u));
      try discriminate. injection Hp as <-. reflexivity. }
  unfold PianoRoll.handleMouseMove. rewrite Hmode.
  destruct (dragState u) as [d|] eqn:Hd;
    destruct (toolMode (app u)); try contradiction;
    cbn [ToolMode_eqb]; rewrite next_callbacks_nil;
    destruct u; cbn in *; subst; reflexivity.
Qed.

End Drag.

Module DragSpec.

Import Constants Types Web AppState App NoteStore UI Drag Scenario.

(** C1.  A drag on a note starts with a pointer-down on it under the
    pointer tool and goes on through pointer moves.  With [zoomX > 0] and
    [zoomY > 0], once the pointer is displaced by [(dx, dy)] from where the
    drag began, whatever moves came in between, the note has the pitch
    [min(108, max(21, p - round(dy / zoomY)))] and the start time
    [max(0, t + dx / zoomX)], where [p] and [t] are its pitch and start time
    before the drag; so the pitch lies in [21,108] and the time in
    [0, infinity). *)
Theorem drag_moves_note
    (u : Screen) (a : AudioAnalysisResult) (b : AudioBuffer) (note : Note)
    (x0 y0 dx dy : Q) (between : list PianoRoll.MouseEvent) :
  analysis (app u) = Some a ->
  audioBuffer (app u) = Some b ->
  toolMode (app u) = POINTER ->
  In note (notes a) ->
  0 < zoomX (viewState (app u)) ->
  0 < zoomY (viewState (app u)) ->
  exists a',
    analysis (app (mouseMove (PianoRoll.mkMouse (x0 + dx) (y0 + dy))
                     (mouseMoves between
                        (noteMouseDown (PianoRoll.mkMouse x0 y0) note u))))
    = Some a'
    /\ map id (notes a') = map id (notes a)
    /\ forall n, In n (notes a') -> id n = id note ->
         midi n == Qmin 108 (Qmax 21
                     (midi note
                      - inject_Z (JsMath.round (dy / zoomY (viewState (app u))))))
         /\ startTime n == Qmax 0 (startTime note + dx / zoomX (viewState (app u)))
         /\ 21 <= midi n <= 108
         /\ 0 <= startTime n.
Proof.
  intros Ha Hb Ht Hnote _ _.
  set (vs := viewState (app u)).
  set (d := PianoRoll.mkDrag (id note) x0 y0 (startTime note) (midi note)).
  assert (Hin : In (PianoRoll.drag_id d) (map id (notes a))).
  { exact (in_map id _ _ Hnote). }
  assert (Hdown : dragging d b vs (map id (notes a))
                    (noteMouseDown (PianoRoll.mkMouse x0 y0) note u)).
  { rewrite (noteMouseDown_pointer u a b _ _ Ha Hb Ht).
    unfold dragging. cbn. repeat split; try assumption.
    eexists. split; [reflexivity|]. apply map_flag_ids. }
  pose proof (mouseMoves_keep_dragging d b vs _ between Hin _ Hdown) as Hmid.
  destruct (mouseMove_dragging _ d b vs _
              (PianoRoll.mkMouse (x0 + dx) (y0 + dy)) Hmid Hin)
    as (a2 & found & Ha2 & Hids & _ & Hfound & ->).
  eexists. split; [reflexivity|].
  cbn [notes with_notes]. split; [rewrite map_put_note_ids; exact Hids|].
  intros n Hn Hid.
  apply in_map_iff in Hn. destruct Hn as (n0 & Hput & _).
  match type of Hput with put_note ?x _ = _ => remember x as upd eqn:Hupd end.
  assert (Hsame : id n0 = id upd).
  { rewrite <- (put_note_id upd n0), Hput, Hid, Hupd. cbn [PianoRoll.moved id].
    rewrite Hfound. reflexivity. }
  rewrite (put_note_same _ _ Hsame) in Hput. subst n upd.
  cbn [PianoRoll.moved midi startTime d PianoRoll.originalTime
       PianoRoll.originalMidi PianoRoll.clientX PianoRoll.clientY
       PianoRoll.startX PianoRoll.startY].
  unfold JsMath.max, JsMath.min, MAX_MIDI, MIN_MIDI.
  assert (Hround : JsMath.round ((y0 + dy - y0) / zoomY vs)
                   = JsMath.round (dy / zoomY vs)).
  { unfold JsMath.round. apply Qfloor_comp.
    setoid_replace (y0 + dy - y0) with dy by ring. reflexivity. }
  rewrite Hround.
  split; [reflexivity|]. split.
  - apply Q.max_compat; [reflexivity|].
    setoid_replace (x0 + dx - x0) with dx by ring. reflexivity.
  - split; [split|].
    + apply Q.min_glb; [discriminate | apply Q.le_max_l].
    + apply Q.le_min_l.
    + apply Q.le_max_l.
Qed.

Lemma drag_moves_note_witness :
  exists a',
    analysis (app (mouseMove (PianoRoll.mkMouse (300 + -50) (400 + 48))
                     (mouseMoves [PianoRoll.mkMouse 310 380;
                                  PianoRoll.mkMouse 20 1000]
                        (noteMouseDown (PianoRoll.mkMouse 300 400)
                           scenario_note scenario_screen))))
    = Some a'
    /\ map id (notes a') = [id scenario_note]
    /\ forall n, In n (notes a') -> id n = id scenario_note ->
         midi n == 58 /\ startTime n == 9 # 2.
Proof.
  destruct (drag_moves_note scenario_screen scenario_analysis
              {| duration := 40 |} scenario_note 300 400 (-50) 48
              [PianoRoll.mkMouse 310 380; PianoRoll.mkMouse 20 1000])
    as (a' & Ha' & Hids & Hmoved);
    try reflexivity; [left; reflexivity|].
  exists a'. split; [exact Ha'|]. split; [exact Hids|].
  intros n Hn Hid. destruct (Hmoved n Hn Hid) as (Hmidi & Htime & _).
  split; [rewrite Hmidi | rewrite Htime]; reflexivity.
Defined.

End DragSpec.

(* ------------------------------------------------------------------ *)
(** ** The transport *)

Module Transport.

Import Types Web AppState App.

Ltac run_handler :=
  unfold next, effects, run, togglePlayPause, handleStop, stop, play, loop,
    setIsPlaying, setCurrentTime, set_startTimeRef, set_sourceNodeRef,
    set_animationFrameRef, modify, bind, get, put, emit, skip, ret;
  cbn [fst snd app isPlaying currentTime startTimeRef sourceNodeRef
       animationFrameRef audioBuffer audioContext].

(** [play] without a buffer or without a context returns at once. *)
Lemma run_play_unloaded (s : State) (now : Q) :
  audioBuffer s = None \/ audioContext s = None ->
  run (play now) s = (s, []).
Proof.
  intros H. unfold run, play.
  destruct (audioBuffer s), (audioContext s), H; try discriminate; reflexivity.
Qed.

Lemma play_loaded (s : State) b c (now : Q) :
  audioBuffer s = Some b ->
  audioContext s = Some c ->
  isPlaying (next (play now) s) = true
  /\ startTimeRef (next (play now) s) = now - currentTime s
  /\ currentTime (next (play now) s) = currentTime s
  /\ audioBuffer (next (play now) s) = Some b
  /\ audioContext (next (play now) s) = Some c
  /\ In (source_start 0 (currentTime s)) (effects (play now) s).
Proof.
  intros Hb Hc. destruct s. cbn in Hb, Hc. subst.
  run_handler. destruct (state c); cbn; repeat split; auto.
Qed.


Lemma stop_result (s : State) :
  isPlaying (next stop s) = false
  /\ currentTime (next stop s) = currentTime s
  /\ startTimeRef (next stop s) = startTimeRef s
  /\ audioBuffer (next stop s) = audioBuffer s
  /\ audioContext (next stop s) = audioContext s
  /\ sourceNodeRef (next stop s) = None
  /\ In (cancelAnimationFrame (animationFrameRef s)) (effects stop s).
Proof.
  destruct s as [? ? ? ? ? ? ? ? ? src ? ? ?]. run_handler.
  destruct src; cbn; repeat split; auto.
Qed.

Lemma handleStop_result (s : State) :
  isPlaying (next handleStop s) = false
  /\ currentTime (next handleStop s) = 0
  /\ startTimeRef (next handleStop s) = startTimeRef s
  /\ audioBuffer (next handleStop s) = audioBuffer s
  /\ audioContext (next handleStop s) = audioContext s
  /\ In (cancelAnimationFrame (animationFrameRef s)) (effects handleStop s).
Proof.
  destruct s as [? ? ? ? ? ? ? ? ? src ? ? ?]. run_handler.
  destruct src; cbn; repeat split; auto.
Qed.

(** A frame that finds the transport stopped does nothing. *)
Lemma loop_idle (s : State) (now : Q) (handle : nat) :
  isPlaying s = false -> run (loop now handle) s = (s, []).
Proof. intros H. unfold run, loop. rewrite H. reflexivity. Qed.

(** A frame at or past the end of the clip is [handleStop]. *)
Lemma loop_at_end (s : State) b c (now : Q) (handle : nat) :
  isPlaying s = true ->
  audioContext s = Some c ->
  audioBuffer s = Some b ->
  duration b <= now - startTimeRef s ->
  run (loop now handle) s = run handleStop s.
Proof.
  intros Hp Hc Hb Hend. apply Qle_bool_iff in Hend.
  destruct s. cbn [isPlaying audioContext audioBuffer startTimeRef] in *. subst.
  unfold run, loop, bind, get.
  cbn [isPlaying audioContext audioBuffer startTimeRef].
  rewrite Hend. destruct (handleStop _ _) as [[x s'] es]. reflexivity.
Qed.

(** A frame before the end publishes the track time and re-arms itself. *)
Lemma loop_before_end (s : State) b c (now : Q) (handle : nat) :
  isPlaying s = true ->
  audioContext s = Some c ->
  audioBuffer s = Some b ->
  now - startTimeRef s < duration b ->
  isPlaying (next (loop now handle) s) = true
  /\ currentTime (next (loop now handle) s) = now - startTimeRef s
  /\ startTimeRef (next (loop now handle) s) = startTimeRef s
  /\ audioBuffer (next (loop now handle) s) = Some b
  /\ audioContext (next (loop now handle) s) = Some c
  /\ effects (loop now handle) s = [requestAnimationFrame handle].
Proof.
  intros Hp Hc Hb Hlt.
  assert (Hno : Qle_bool (duration b) (now - startTimeRef s) = false).
  { destruct (Qle_bool (duration b) (now - startTimeRef s)) eqn:E; [|reflexivity].
    apply Qle_bool_iff in E. exfalso. exact (Qlt_not_le _ _ Hlt E). }
  destruct s. cbn [isPlaying audioContext audioBuffer startTimeRef] in *. subst.
  unfold next, effects, run, loop, bind, get.
  cbn [isPlaying audioContext audioBuffer startTimeRef].
  rewrite Hno. repeat split; reflexivity.
Qed.

(** What a frame can do: nothing, what the stop control does, or publish
    the track time and go on playing. *)
Lemma loop_cases (s : State) (now : Q) (handle : nat) :
  run (loop now handle) s = (s, [])
  \/ run (loop now handle) s = run handleStop s
  \/ (isPlaying (next (loop now handle) s) = true
      /\ currentTime (next (loop now handle) s) = now - startTimeRef s).
Proof.
  destruct (isPlaying s) eqn:Hp; [|left; apply loop_idle; exact Hp].
  destruct (audioContext s) as [c|] eqn:Hc.
  - destruct (audioBuffer s) as [b|] eqn:Hb.
    + destruct (Qlt_le_dec (now - startTimeRef s) (duration b)) as [Hlt | Hle].
      * right. right.
        destruct (loop_before_end s b c now handle Hp Hc Hb Hlt) as (H1 & H2 & _).
        auto.
      * right. left. apply (loop_at_end s b c); assumption.
    + right. right. destruct s.
      cbn [isPlaying audioContext audioBuffer startTimeRef] in *. subst.
      split; reflexivity.
  - left. unfold run, loop. rewrite Hp, Hc. reflexivity.
Qed.

End Transport.

Module Clock.

Import Types Web AppState App Transport.

(** The three cells a frame never changes. *)
Lemma loop_keeps_epoch (r : State) b c (now : Q) (handle : nat) :
  audioBuffer r = Some b ->
  audioContext r = Some c ->
  startTimeRef (next (loop now handle) r) = startTimeRef r
  /\ audioBuffer (next (loop now handle) r) = Some b
  /\ audioContext (next (loop now handle) r) = Some c.
Proof.
  intros Hb Hc. destruct (isPlaying r) eqn:Hp.
  - destruct (Qlt_le_dec (now - startTimeRef r) (duration b)) as [Hlt | Hle].
    + destruct (loop_before_end r b c now handle Hp Hc Hb Hlt)
        as (_ & _ & He & Hb' & Hc' & _). auto.
    + unfold next. rewrite (loop_at_end r b c now handle Hp Hc Hb Hle).
      destruct (handleStop_result r) as (_ & _ & He & Hb' & Hc' & _).
      unfold next in *. rewrite He, Hb', Hc'. auto.
  - unfold next. rewrite (loop_idle r now handle Hp). auto.
Qed.

Lemma frames_keep_epoch b c (ts : list (Q * nat)) :
  forall r,
    audioBuffer r = Some b ->
    audioContext r = Some c ->
    startTimeRef (frames ts r) = startTimeRef r
    /\ audioBuffer (frames ts r) = Some b
    /\ audioContext (frames ts r) = Some c.
Proof.
  unfold frames. induction ts as [|t ts IH]; intros r Hb Hc; [auto|].
  cbn [fold_left].
  destruct (loop_keeps_epoch r b c (fst t) (snd t) Hb Hc) as (He & Hb' & Hc').
  destruct (IH _ Hb' Hc') as (He2 & Hb2 & Hc2).
  rewrite He2, He. auto.
Qed.

(** Frames that all fall before the end of the clip leave the transport
    playing. *)
Lemma frames_keep_playing b c (ts : list (Q * nat)) :
  forall r,
    audioBuffer r = Some b ->
    audioContext r = Some c ->
    isPlaying r = true ->
    (forall t, In t ts -> fst t - startTimeRef r < duration b) ->
    isPlaying (frames ts r) = true.
Proof.
  unfold frames. induction ts as [|t ts IH]; intros r Hb Hc Hp Hts; [exact Hp|].
  cbn [fold_left].
  destruct (loop_before_end r b c (fst t) (snd t) Hp Hc Hb)
    as (Hp' & _ & He & Hb' & Hc' & _).
  { apply Hts. left. reflexivity. }
  apply IH; try assumption.
  intros t' Ht'. rewrite He. apply Hts. right. exact Ht'.
Qed.

Lemma elapsed_since_epoch (now delta t0 : Q) :
  now + delta - (now - t0) == t0 + delta.
Proof. ring. Qed.

End Clock.

Module TransportSpec.

Import Types Web AppState App Transport Clock Scenario.

(** C4.  Starting playback at position [t0] while the hardware clock reads
    [now] records the epoch [now - t0].  While playing, a frame at clock
    reading [now'] computes [elapsed = now' - epoch]; if
    [elapsed >= duration] the transport stops, otherwise [elapsed] becomes
    the current time.  Hence a frame [delta] after the start, whatever
    earlier frames ran in between, finds the transport stopped when
    [t0 + delta >= duration] and otherwise reports [t0 + delta]. *)
Theorem playback_follows_clock
    (s : State) (b : AudioBuffer) (c : AudioContext)
    (now delta : Q) (handle : nat) (between : list (Q * nat)) :
  audioBuffer s = Some b ->
  audioContext s = Some c ->
  (forall t, In t between -> fst t <= now + delta) ->
  let playing := next (play now) s in
  let queried := next (loop (now + delta) handle) (frames between playing) in
  isPlaying playing = true
  /\ startTimeRef playing = now - currentTime s
  /\ (forall (r : State) (now' : Q) (h : nat),
        isPlaying r = true -> audioContext r = Some c -> audioBuffer r = Some b ->
        (duration b <= now' - startTimeRef r ->
         isPlaying (next (loop now' h) r) = false)
        /\ (now' - startTimeRef r < duration b ->
            isPlaying (next (loop now' h) r) = true
            /\ currentTime (next (loop now' h) r) = now' - startTimeRef r))
  /\ (currentTime s + delta < duration b ->
      isPlaying queried = true /\ currentTime queried == currentTime s + delta)
  /\ (duration b <= currentTime s + delta -> isPlaying queried = false).
Proof.
  intros Hb Hc Hbetween playing queried.
  destruct (play_loaded s b c now Hb Hc) as (Hp & He & _ & Hb1 & Hc1 & _).
  fold playing in Hp, He, Hb1, Hc1.
  destruct (frames_keep_epoch b c between playing Hb1 Hc1) as (He2 & Hb2 & Hc2).
  rewrite He in He2.
  split; [exact Hp|]. split; [exact He|]. split; [|split].
  - intros r now' h Hpr Hcr Hbr. split.
    + intros Hend. unfold next.
      rewrite (loop_at_end r b c now' h Hpr Hcr Hbr Hend).
      apply (handleStop_result r).
    + intros Hlt.
      destruct (loop_before_end r b c now' h Hpr Hcr Hbr Hlt) as (H1 & H2 & _).
      auto.
  - intros Hlt.
    assert (Hstill : isPlaying (frames between playing) = true).
    { apply (frames_keep_playing b c); try assumption.
      intros t Ht. rewrite He.
      apply Qle_lt_trans with (now + delta - (now - currentTime s)).
      - apply Qplus_le_l. apply Hbetween. exact Ht.
      - rewrite elapsed_since_epoch. exact Hlt. }
    destruct (loop_before_end _ b c (now + delta) handle Hstill Hc2 Hb2)
      as (H1 & H2 & _).
    { rewrite He2, elapsed_since_epoch. exact Hlt. }
    split; [exact H1|]. unfold queried. rewrite H2, He2.
    apply elapsed_since_epoch.
  - intros Hend. unfold queried.
    destruct (isPlaying (frames between playing)) eqn:Hstill.
    + unfold next.
      rewrite (loop_at_end _ b c (now + delta) handle Hstill Hc2 Hb2).
      * apply (handleStop_result (frames between playing)).
      * rewrite He2, elapsed_since_epoch. exact Hend.
    + unfold next. rewrite (loop_idle _ _ _ Hstill). exact Hstill.
Qed.

Lemma playback_follows_clock_witness :
  let playing := next (play 10) scenario_state in
  isPlaying playing = true
  /\ startTimeRef playing = 10 - 0
  /\ currentTime (next (loop (10 + (25 # 2)) 3)
                    (frames [(11, 1%nat); (12, 2%nat)] playing)) == 0 + (25 # 2)
  /\ isPlaying (next (loop (10 + 40) 3)
                  (frames [(11, 1%nat); (12, 2%nat)] playing)) = false.
Proof.
  assert (Hearly : forall t : Q * nat,
             In t [(11, 1%nat); (12, 2%nat)] -> fst t <= 10 + (25 # 2)).
  { intros t [<- | [<- | []]]; discriminate. }
  assert (Hlate : forall t : Q * nat,
             In t [(11, 1%nat); (12, 2%nat)] -> fst t <= 10 + 40).
  { intros t [<- | [<- | []]]; discriminate. }
  destruct (playback_follows_clock scenario_state {| duration := 40 |}
              {| state := running |} 10 (25 # 2) 3 _ eq_refl eq_refl Hearly)
    as (Hp & He & _ & Hrun & _).
  destruct (playback_follows_clock scenario_state {| duration := 40 |}
              {| state := running |} 10 40 3 _ eq_refl eq_refl Hlate)
    as (_ & _ & _ & _ & Hstop).
  split; [exact Hp|]. split; [exact He|]. split.
  - apply Hrun. reflexivity.
  - apply Hstop. discriminate.
Defined.

(** C3, as the code has it.  The stop control resets the playback position
    to 0, and so does the automatic stop at the end of the track: the frame
    that finds the track time at or past the duration runs the handler of
    the stop control. *)
Theorem stop_resets_position (s : State) :
  currentTime (next handleStop s) = 0
  /\ isPlaying (next handleStop s) = false
  /\ forall (b : AudioBuffer) (c : AudioContext) (now : Q) (handle : nat),
       isPlaying s = true ->
       audioContext s = Some c ->
       audioBuffer s = Some b ->
       duration b <= now - startTimeRef s ->
       run (loop now handle) s = run handleStop s
       /\ currentTime (next (loop now handle) s) = 0
       /\ isPlaying (next (loop now handle) s) = false.
Proof.
  destruct (handleStop_result s) as (Hp & Ht & _).
  split; [exact Ht|]. split; [exact Hp|].
  intros b c now handle Hplaying Hc Hb Hend.
  pose proof (loop_at_end s b c now handle Hplaying Hc Hb Hend) as Hrun.
  unfold next. rewrite Hrun. auto.
Qed.

Lemma stop_resets_position_witness :
  currentTime (next handleStop late_state) = 0
  /\ currentTime (next (loop (501 # 10) 8) late_state) = 0
  /\ isPlaying (next (loop (501 # 10) 8) late_state) = false.
Proof.
  destruct (stop_resets_position late_state) as (Hmanual & _ & Hauto).
  split; [exact Hmanual|].
  destruct (Hauto {| duration := 40 |} {| state := running |} (501 # 10) 8%nat)
    as (_ & Ht & Hp); try reflexivity; [discriminate|].
  split; [exact Ht | exact Hp].
Defined.

(** C3, as stated, fails: in a playing state whose last published position
    is 39.9 s of a 40 s clip, the frame at track time 40.1 s stops the
    transport and leaves the position at 0, not at 39.9. *)
Lemma auto_stop_keeps_position_counterexample :
  isPlaying late_state = true
  /\ currentTime late_state == 399 # 10
  /\ isPlaying (next (loop (501 # 10) 8) late_state) = false
  /\ currentTime (next (loop (501 # 10) 8) late_state) == 0
  /\ ~ currentTime (next (loop (501 # 10) 8) late_state) == currentTime late_state.
Proof.
  split; [reflexivity|]. split; [reflexivity|]. split; [reflexivity|].
  split; [reflexivity|]. discriminate.
Qed.

(** C7.  With no audio buffer loaded, [play] is a no-op: the state is left
    as it was and nothing is done to the audio context, the frame queue or
    the screen.  The same holds for the play/pause control of a stopped
    transport. *)
Theorem play_without_audio (s : State) (now : Q) :
  audioBuffer s = None ->
  run (play now) s = (s, [])
  /\ (isPlaying s = false -> run (togglePlayPause now) s = (s, [])).
Proof.
  intros Hb.
  assert (Hplay : run (play now) s = (s, [])).
  { apply run_play_unloaded. left. exact Hb. }
  split; [exact Hplay|].
  intros Hp. unfold run, togglePlayPause. rewrite Hp. exact Hplay.
Qed.

Lemma play_without_audio_witness :
  run (play 5) initial_state = (initial_state, [])
  /\ run (togglePlayPause 5) initial_state = (initial_state, []).
Proof.
  destruct (play_without_audio initial_state 5 eq_refl) as (Hplay & Htoggle).
  split; [exact Hplay | apply Htoggle; reflexivity].
Defined.

End TransportSpec.

Module PauseSpec.

Import Types Web AppState App Transport Scenario.

Lemma toggle_playing (s : State) (now : Q) :
  isPlaying s = true -> run (togglePlayPause now) s = run stop s.
Proof. intros H. unfold run, togglePlayPause. rewrite H. reflexivity. Qed.

Lemma toggle_stopped (s : State) (now : Q) :
  isPlaying s = false -> run (togglePlayPause now) s = run (play now) s.
Proof. intros H. unfold run, togglePlayPause. rewrite H. reflexivity. Qed.



End PauseSpec.

(* ------------------------------------------------------------------ *)
(** ** Uploading a file *)

Module UploadSpec.

Import Types Web AppState App Scenario.

(** C8.  An upload whose first file is larger than 50 MB
    ([50 * 1024 * 1024] bytes) is rejected at once, whatever the
    collaborators would have answered: the only effect is the alert with
    the message for the user, neither the decoder nor the encoder nor the
    transcription service is called, and the state (file name, analysis
    result and audio buffer included) is left as it was. *)
Theorem oversized_upload_rejected
    (new_AudioContext : AudioContext)
    (decodeAudio : File -> AudioContext -> option AudioBuffer)
    (fileToBase64 : File -> option string)
    (analyzeAudioWithGemini : string -> string -> list string * option AudioAnalysisResult)
    (s : State) (file : File) (others : list File) :
  (50 * 1024 * 1024 < size file)%N ->
  let upload := handleFileUpload new_AudioContext decodeAudio fileToBase64
                  analyzeAudioWithGemini (Some (file :: others)) in
  run upload s = (s, [alert too_large_message])
  /\ fileName (next upload s) = fileName s
  /\ analysis (next upload s) = analysis s
  /\ audioBuffer (next upload s) = audioBuffer s
  /\ (forall f, ~ In (call_decodeAudio f) (effects upload s))
  /\ (forall f, ~ In (call_fileToBase64 f) (effects upload s))
  /\ (forall d m, ~ In (call_analyzeAudioWithGemini d m) (effects upload s)).
Proof.
  intros Hsize upload.
  assert (Hrun : run upload s = (s, [alert too_large_message])).
  { unfold upload, run, handleFileUpload. cbn [nth_error].
    apply N.ltb_lt in Hsize. unfold SIZE_LIMIT. rewrite Hsize. reflexivity. }
  unfold next, effects. rewrite Hrun. cbn [fst snd].
  repeat split; try reflexivity;
    intros; intros [Habs | []]; discriminate.
Qed.

Lemma oversized_upload_rejected_witness :
  run (handleFileUpload {| state := running |} decode_ok base64_ok analyze_ok
         (Some [big_file])) initial_state
  = (initial_state, [alert too_large_message]).
Proof.
  apply (oversized_upload_rejected {| state := running |} decode_ok base64_ok
           analyze_ok initial_state big_file []).
  reflexivity.
Defined.

End UploadSpec.

(* ------------------------------------------------------------------ *)
(** ** Hydrating the reply of the transcription service *)

Module GeminiSpec.

Import GeminiService Scenario.
Local Open Scope string_scope.

Lemma build_with_notes (Date_now : nat -> N) (data : Value) (items : list Value) :
  get data "notes" = Ok (array items) ->
  exists props,
    data = object props
    /\ build Date_now data
       = Ok {| key := or_else (lookup props "key") (str "Desconocido");
               scale := or_else (lookup props "scale") (str "Desconocido");
               bpm := or_else (lookup props "bpm") (number 120);
               notes := hydrate_from Date_now 0 items |}.
Proof.
  intros Hnotes. destruct data; try discriminate.
  exists props. split; [reflexivity|].
  unfold build, map_notes. rewrite Hnotes. reflexivity.
Qed.

Lemma build_without_notes (Date_now : nat -> N) (data : Value) :
  (forall items, get data "notes" <> Ok (array items)) ->
  exists message, build Date_now data = Throw message.
Proof.
  intros Hnot. unfold build, map_notes.
  destruct (get data "notes") as [v | m]; [|eexists; reflexivity].
  destruct v; try (eexists; reflexivity).
  exfalso. exact (Hnot items eq_refl).
Qed.

Lemma hydrate_from_length (Date_now : nat -> N) (items : list Value) :
  forall index, List.length (hydrate_from Date_now index items) = List.length items.
Proof.
  induction items as [|n items IH]; intros index; [reflexivity|].
  cbn [hydrate_from List.length]. rewrite IH. reflexivity.
Qed.

(** C9.  Once the service has answered with a text that parses to [data]:
    if [data.notes] is an array the call succeeds, and in the result a
    missing [key], [scale] or [bpm] is replaced by ["Desconocido"],
    ["Desconocido"] and [120], while a non-empty string or non-zero number
    that is present is kept; if [data.notes] is missing or is not an array
    the call fails with an error. *)
Theorem reply_defaults_and_failures
    (API_KEY : option string)
    (generateContent : string -> string -> option (option string))
    (JSON_parse : string -> option Value)
    (Date_now : nat -> N)
    (base64Audio mimeType text : string) (data : Value) :
  falsy_string API_KEY = false ->
  generateContent mimeType base64Audio = Some (Some text) ->
  text <> "" ->
  JSON_parse text = Some data ->
  let settled :=
    snd (analyzeAudioWithGemini API_KEY generateContent JSON_parse Date_now
           base64Audio mimeType) in
  (forall items,
      get data "notes" = Ok (array items) ->
      exists result,
        settled = Ok result
        /\ List.length (notes result) = List.length items
        /\ (get data "key" = Ok undefined -> key result = str "Desconocido")
        /\ (get data "scale" = Ok undefined -> scale result = str "Desconocido")
        /\ (get data "bpm" = Ok undefined -> bpm result = number 120)
        /\ (forall v, get data "key" = Ok v -> truthy v = true -> key result = v)
        /\ (forall v, get data "scale" = Ok v -> truthy v = true -> scale result = v)
        /\ (forall v, get data "bpm" = Ok v -> truthy v = true -> bpm result = v))
  /\ ((forall items, get data "notes" <> Ok (array items)) ->
      exists message, settled = Throw message).
Proof.
  intros Hkey Hanswer Htext Hparse settled.
  assert (Hsettled : settled = build Date_now data).
  { unfold settled, analyzeAudioWithGemini.
    rewrite Hkey, Hanswer.
    destruct (String.eqb text "") eqn:E.
    - apply String.eqb_eq in E. contradiction.
    - rewrite Hparse. reflexivity. }
  rewrite Hsettled. split.
  - intros items Hnotes.
    destruct (build_with_notes Date_now data items Hnotes) as (props & -> & ->).
    eexists. split; [reflexivity|]. cbn [key scale bpm notes get].
    split; [apply hydrate_from_length|].
    repeat split.
    + intros H. injection H as ->. reflexivity.
    + intros H. injection H as ->. reflexivity.
    + intros H. injection H as ->. reflexivity.
    + intros v H Hv. injection H as ->. unfold or_else. rewrite Hv. reflexivity.
    + intros v H Hv. injection H as ->. unfold or_else. rewrite Hv. reflexivity.
    + intros v H Hv. injection H as ->. unfold or_else. rewrite Hv. reflexivity.
  - apply build_without_notes.
Qed.

Lemma reply_defaults_and_failures_witness :
  (exists result,
      snd (analyzeAudioWithGemini (Some "k") model_answers (reply_with notes_only)
             (fun _ => 1700000000000%N) "UklGRg==" "audio/mpeg") = Ok result
      /\ key result = str "Desconocido"
      /\ scale result = str "Desconocido"
      /\ bpm result = number 120
      /\ List.length (notes result) = 1%nat)
  /\ (exists message,
      snd (analyzeAudioWithGemini (Some "k") model_answers (reply_with no_notes)
             (fun _ => 1700000000000%N) "UklGRg==" "audio/mpeg") = Throw message).
Proof.
  split.
  - destruct (reply_defaults_and_failures (Some "k") model_answers
                (reply_with notes_only) (fun _ => 1700000000000%N)
                "UklGRg==" "audio/mpeg" "{...}" notes_only)
      as (Hok & _); try reflexivity; [discriminate|].
    destruct (Hok _ eq_refl) as (result & Hres & Hlen & Hk & Hs & Hb & _).
    exists result. split; [exact Hres|].
    split; [apply Hk; reflexivity|]. split; [apply Hs; reflexivity|].
    split; [apply Hb; reflexivity | exact Hlen].
  - destruct (reply_defaults_and_failures (Some "k") model_answers
                (reply_with no_notes) (fun _ => 1700000000000%N)
                "UklGRg==" "audio/mpeg" "{...}" no_notes)
      as (_ & Hfail); try reflexivity; [discriminate|].
    apply Hfail. intros items. discriminate.
Defined.

End GeminiSpec.

(* ------------------------------------------------------------------ *)
(** ** The embedding at work on concrete inputs *)

Module Examples.

Import Types Web AppState App Scenario.
Local Open Scope string_scope.

(** [Math.round] sends a tie upwards, also below zero. *)
Example round_ties :
  JsMath.round (5 # 2) = 3%Z /\ JsMath.round (-5 # 2) = (-2)%Z
  /\ JsMath.round (12 # 5) = 2%Z /\ JsMath.round (-13 # 5) = (-3)%Z.
Proof. repeat split. Qed.

(** The note of the scenario is drawn at left 500 px, top 1152 px, with a
    width of 200 px. *)
Example scenario_rectangle :
  PianoRoll.note_left scenario_props scenario_note == 500
  /\ PianoRoll.note_top scenario_props scenario_note == 1152
  /\ PianoRoll.note_width scenario_props scenario_note == 200.
Proof. repeat split. Qed.

(** The key column has 88 rows, from C8 at the top to A0 at the bottom. *)
Example key_column_rows :
  List.length (PianoRoll.key_rows scenario_props) = 88%nat
  /\ option_map PianoRoll.row_midi (hd_error (PianoRoll.key_rows scenario_props))
     = Some (108 - 0)
  /\ PianoRoll.key_pixelY scenario_props 109 = None
  /\ PianoRoll.key_pixelY scenario_props 20 = None.
Proof. repeat split. Qed.

(** A drag far to the left and far down stops at time 0 and pitch 21. *)
Example drag_is_clamped :
  PianoRoll.handleMouseMove scenario_props
    (Some (PianoRoll.mkDrag (id scenario_note) 300 400 5 60))
    (PianoRoll.mkMouse (-1000) 5000)
  = [PianoRoll.onNoteUpdate
       (mkNote (id scenario_note) 21 0 2 (8 # 10) (Some false))].
Proof. reflexivity. Qed.

(** A 40 MB upload goes through the decoder, the encoder and the service,
    in this order, and ends with the analysis shown. *)
Example accepted_upload :
  let upload := handleFileUpload {| state := running |} decode_ok base64_ok
                  analyze_ok (Some [small_file]) in
  effects upload initial_state
  = [call_decodeAudio small_file; call_fileToBase64 small_file;
     call_analyzeAudioWithGemini "UklGRg==" "audio/mpeg"]
  /\ analysis (next upload initial_state) = Some scenario_analysis
  /\ audioBuffer (next upload initial_state) = Some {| duration := 40 |}
  /\ fileName (next upload initial_state) = Some "clip.mp3"
  /\ isAnalyzing (next upload initial_state) = false.
Proof. repeat split. Qed.

(** A file of exactly 50 MB is not rejected. *)
Example upload_at_the_limit :
  effects (handleFileUpload {| state := running |} decode_ok base64_ok analyze_ok
             (Some [{| name := "a.wav"; size := 50 * 1024 * 1024;
                       type := "audio/wav" |}])) initial_state
  <> [alert too_large_message].
Proof. discriminate. Qed.

(** A decoder failure is caught: the error is logged, the user is alerted,
    no analysis is shown and the spinner is taken down. *)
Example failed_decode :
  let upload := handleFileUpload {| state := running |} (fun _ _ => None)
                  base64_ok analyze_ok (Some [small_file]) in
  effects upload initial_state
  = [call_decodeAudio small_file;
     console_error "Failed to load/analyze:";
     alert "Error procesando audio. Revisa la consola y la clave API."]
  /\ analysis (next upload initial_state) = None
  /\ isAnalyzing (next upload initial_state) = false.
Proof. repeat split. Qed.

(** The service gives every note a fresh identifier and clears its flag. *)
Example hydrated_note :
  snd (GeminiService.analyzeAudioWithGemini (Some "k") model_answers
         (reply_with notes_only) (fun _ => 1700000000000%N)
         "UklGRg==" "audio/mpeg")
  = GeminiService.Ok
      {| GeminiService.key := GeminiService.str "Desconocido";
         GeminiService.scale := GeminiService.str "Desconocido";
         GeminiService.bpm := GeminiService.number 120;
         GeminiService.notes :=
           [GeminiService.object
              [("midi", GeminiService.number 60);
               ("startTime", GeminiService.number 5);
               ("duration", GeminiService.number 2);
               ("velocity", GeminiService.number (8 # 10));
               ("id", GeminiService.str "note-0-1700000000000");
               ("selected", GeminiService.boolean false)]] |}.
Proof. reflexivity. Qed.

(** Without an API key the call fails before anything is sent. *)
Example missing_api_key :
  GeminiService.analyzeAudioWithGemini None model_answers (reply_with notes_only)
    (fun _ => 0%N) "UklGRg==" "audio/mpeg"
  = ([], GeminiService.Throw
           "Falta la clave API. Por favor configura la variable de entorno API_KEY.").
Proof. reflexivity. Qed.

(** Play, two frames, pause, play again, stop. *)
Example transport_session :
  let s1 := next (togglePlayPause 10) scenario_state in
  let s2 := frames [(11, 1%nat); (25 # 2, 2%nat)] s1 in
  let s3 := next (togglePlayPause 13) s2 in
  let s4 := next (togglePlayPause 20) s3 in
  let s5 := next handleStop s4 in
  (isPlaying s1, startTimeRef s1) = (true, 10 - 0)
  /\ currentTime s2 == 5 # 2
  /\ (isPlaying s3 = false /\ currentTime s3 == 5 # 2)
  /\ (isPlaying s4 = true /\ startTimeRef s4 == 35 # 2)
  /\ (isPlaying s5 = false /\ currentTime s5 == 0).
Proof. repeat split. Qed.

End Examples.

(* ================================================================== *)
(** * Further properties of the code *)

(* ------------------------------------------------------------------ *)
(** ** Integers as JavaScript numbers *)

Module JsFacts.

Local Open Scope Z_scope.

Lemma Qle_bool_nonneg_div (m b : Z) :
  0 <= m -> 0 < b -> Qle_bool 0 (inject_Z m / inject_Z b) = true.
Proof.
  intros Hm Hb. apply Qle_bool_iff.
  apply Qle_shift_div_l.
  - change (inject_Z 0 < inject_Z b)%Q. rewrite <- Zlt_Qlt. exact Hb.
  - rewrite Qmult_0_l. change (inject_Z 0 <= inject_Z m)%Q.
    rewrite <- Zle_Qle. exact Hm.
Qed.

(** On a non-negative integer and a positive integer, [%] is [mod]. *)
Lemma rem_nonneg (m b : Z) :
  0 <= m -> 0 < b ->
  (Js.rem (inject_Z m) (inject_Z b) == inject_Z (m mod b))%Q.
Proof.
  intros Hm Hb. unfold Js.rem, Js.trunc.
  rewrite (Qle_bool_nonneg_div m b Hm Hb), <- Zdiv_Qdiv.
  rewrite Z.mod_eq by lia.
  unfold Zminus. rewrite inject_Z_plus, inject_Z_opp, inject_Z_mult. ring.
Qed.

(** On integers with a positive divisor, the integer part of the quotient
    is [Z.quot] and [%] is [Z.rem]. *)
Lemma trunc_quot (m b : Z) :
  0 < b -> Js.trunc (inject_Z m / inject_Z b) = m ÷ b.
Proof.
  intros Hb. destruct (Z_le_gt_dec 0 m) as [Hm | Hm].
  - unfold Js.trunc. rewrite (Qle_bool_nonneg_div m b Hm Hb), <- Zdiv_Qdiv.
    symmetry. apply Z.quot_div_nonneg; lia.
  - unfold Js.trunc.
    assert (Hneg : Qle_bool 0 (inject_Z m / inject_Z b) = false).
    { destruct (Qle_bool 0 (inject_Z m / inject_Z b)) eqn:E; [|reflexivity].
      apply Qle_bool_iff in E. exfalso.
      assert (Hlt : (inject_Z m / inject_Z b < 0)%Q).
      { apply Qlt_shift_div_r.
        - change (inject_Z 0 < inject_Z b)%Q. rewrite <- Zlt_Qlt. exact Hb.
        - rewrite Qmult_0_l. change (inject_Z m < inject_Z 0)%Q.
          rewrite <- Zlt_Qlt. lia. }
      exact (Qlt_not_le _ _ Hlt E). }
    rewrite Hneg. unfold Qceiling.
    assert (Hopp : (- (inject_Z m / inject_Z b) == inject_Z (- m) / inject_Z b)%Q).
    { rewrite inject_Z_opp. unfold Qdiv. ring. }
    rewrite (Qfloor_comp _ _ Hopp), <- Zdiv_Qdiv.
    rewrite <- (Z.quot_div_nonneg (- m) b) by lia.
    rewrite Z.quot_opp_l by lia. lia.
Qed.

Lemma rem_int (m b : Z) :
  0 < b -> (Js.rem (inject_Z m) (inject_Z b) == inject_Z (Z.rem m b))%Q.
Proof.
  intros Hb. unfold Js.rem. rewrite (trunc_quot m b Hb).
  rewrite Z.rem_eq by lia.
  unfold Zminus. rewrite inject_Z_plus, inject_Z_opp, inject_Z_mult. ring.
Qed.

Lemma floor_div (m b : Z) : Js.floor (inject_Z m / inject_Z b) = m / b.
Proof. unfold Js.floor. symmetry. apply Zdiv_Qdiv. Qed.

(** Indexing with a number that is a non-negative integer. *)
Lemma at_index_int (xs : list string) (q : Q) (k : Z) :
  (q == inject_Z k)%Q -> 0 <= k ->
  Js.at_index xs q = nth_error xs (Z.to_nat k).
Proof.
  intros Hq Hk. unfold Js.at_index.
  rewrite (Qfloor_comp _ _ Hq), Qfloor_Z.
  assert (E : Qeq_bool (inject_Z k) q = true).
  { apply Qeq_bool_iff. symmetry. exact Hq. }
  rewrite E. apply Z.leb_le in Hk. rewrite Hk. reflexivity.
Qed.

(** Indexing with a negative number or with a fraction gives [undefined]. *)
Lemma at_index_negative (xs : list string) (q : Q) (k : Z) :
  (q == inject_Z k)%Q -> k < 0 -> Js.at_index xs q = None.
Proof.
  intros Hq Hk. unfold Js.at_index.
  rewrite (Qfloor_comp _ _ Hq), Qfloor_Z.
  apply Z.leb_gt in Hk. rewrite Hk, andb_false_r. reflexivity.
Qed.

Lemma Qeq_bool_int (q : Q) (k c : Z) :
  (q == inject_Z k)%Q -> Qeq_bool q (inject_Z c) = (k =? c).
Proof.
  intros Hq. destruct (k =? c) eqn:E.
  - apply Z.eqb_eq in E. subst. apply Qeq_bool_iff. exact Hq.
  - apply Z.eqb_neq in E. destruct (Qeq_bool q (inject_Z c)) eqn:F; [|reflexivity].
    apply Qeq_bool_iff in F. rewrite Hq in F. apply (proj1 (inject_Z_injective _ _)) in F. destruct (E F).
Qed.

End JsFacts.

(* ------------------------------------------------------------------ *)
(** ** constants.ts: key names *)

Module KeyNames.

Import Constants JsFacts.
Local Open Scope string_scope.
Local Open Scope Z_scope.

Lemma note_of_int (m : Z) :
  0 <= m -> note_of (inject_Z m) = nth_error NOTE_NAMES (Z.to_nat (m mod 12)).
Proof.
  intros Hm. unfold note_of. change 12%Q with (inject_Z 12).
  apply at_index_int.
  - apply rem_nonneg; lia.
  - apply Z.mod_pos_bound. lia.
Qed.

Lemma isBlackKey_rem (m r : Z) :
  (Js.rem (inject_Z m) 12 == inject_Z r)%Q ->
  isBlackKey (inject_Z m)
  = ((r =? 1) || (r =? 3) || (r =? 6) || (r =? 8) || (r =? 10))%bool.
Proof.
  intros Hr. unfold isBlackKey.
  change 1%Q with (inject_Z 1). change 3%Q with (inject_Z 3).
  change 6%Q with (inject_Z 6). change 8%Q with (inject_Z 8).
  change 10%Q with (inject_Z 10).
  rewrite !(Qeq_bool_int _ r) by exact Hr. reflexivity.
Qed.

Lemma octave_of_int (m : Z) : octave_of (inject_Z m) = m / 12 - 1.
Proof.
  unfold octave_of. change 12%Q with (inject_Z 12). rewrite floor_div. reflexivity.
Qed.

Lemma residues (r : Z) :
  0 <= r < 12 ->
  r = 0 \/ r = 1 \/ r = 2 \/ r = 3 \/ r = 4 \/ r = 5 \/ r = 6 \/ r = 7
  \/ r = 8 \/ r = 9 \/ r = 10 \/ r = 11.
Proof. lia. Qed.

(** The black keys are the keys named with a sharp: for every integer pitch
    that is not negative, [isBlackKey] holds exactly when the note name
    [NOTE_NAMES[midi % 12]] is one of C#, D#, F#, G# and A#. *)
Theorem black_keys_are_sharps (m : Z) :
  0 <= m ->
  isBlackKey (inject_Z m) = true
  <-> In (note_of (inject_Z m))
         [Some "C#"; Some "D#"; Some "F#"; Some "G#"; Some "A#"].
Proof.
  intros Hm. rewrite (note_of_int m Hm).
  rewrite (isBlackKey_rem m (m mod 12)) by (change 12%Q with (inject_Z 12);
                                             apply rem_nonneg; lia).
  pose proof (residues (m mod 12) (Z.mod_pos_bound m 12 eq_refl)) as Hr.
  repeat (destruct Hr as [-> | Hr]); try rewrite Hr; cbn;
    intuition (try discriminate; try reflexivity).
Qed.

Lemma black_keys_are_sharps_witness :
  isBlackKey 61 = true
  /\ In (note_of 61) [Some "C#"; Some "D#"; Some "F#"; Some "G#"; Some "A#"]
  /\ ~ In (note_of 60) [Some "C#"; Some "D#"; Some "F#"; Some "G#"; Some "A#"].
Proof.
  split; [reflexivity|]. split.
  - apply (black_keys_are_sharps 61); [discriminate | reflexivity].
  - intros H. apply (black_keys_are_sharps 60) in H; [discriminate H | discriminate].
Defined.

(** Twelve semitones up is the same note one octave higher: for every
    integer pitch that is not negative, the note name and the colour of the
    key are those of the pitch twelve below, and the octave number is one
    more.  The octave number of the integer pitch [m] is [m / 12 - 1]. *)
Theorem octave_up (m : Z) :
  0 <= m ->
  note_of (inject_Z (m + 12)) = note_of (inject_Z m)
  /\ octave_of (inject_Z (m + 12)) = octave_of (inject_Z m) + 1
  /\ octave_of (inject_Z m) = m / 12 - 1
  /\ isBlackKey (inject_Z (m + 12)) = isBlackKey (inject_Z m)
  /\ getNoteName (inject_Z (m + 12))
     = Js.interpolate (note_of (inject_Z m))
       ++ Js.toString (octave_of (inject_Z m) + 1).
Proof.
  intros Hm.
  assert (Hmod : (m + 12) mod 12 = m mod 12).
  { replace (m + 12) with (m + 1 * 12) by lia. apply Z_mod_plus_full. }
  assert (Hdiv : (m + 12) / 12 = m / 12 + 1).
  { replace (m + 12) with (m + 1 * 12) by lia. apply Z.div_add. lia. }
  assert (Hnote : note_of (inject_Z (m + 12)) = note_of (inject_Z m)).
  { rewrite !note_of_int by lia. rewrite Hmod. reflexivity. }
  assert (Hoct : octave_of (inject_Z (m + 12)) = octave_of (inject_Z m) + 1).
  { rewrite !octave_of_int, Hdiv. lia. }
  split; [exact Hnote|]. split; [exact Hoct|]. split; [apply octave_of_int|].
  split.
  - rewrite (isBlackKey_rem (m + 12) ((m + 12) mod 12))
      by (change 12%Q with (inject_Z 12); apply rem_nonneg; lia).
    rewrite (isBlackKey_rem m (m mod 12))
      by (change 12%Q with (inject_Z 12); apply rem_nonneg; lia).
    rewrite Hmod. reflexivity.
  - unfold getNoteName. rewrite Hnote, Hoct. reflexivity.
Qed.

Lemma octave_up_witness :
  getNoteName 60 = "C4" /\ getNoteName (inject_Z (60 + 12)) = "C5".
Proof.
  split; [reflexivity|].
  destruct (octave_up 60) as (_ & _ & _ & _ & Hname); [discriminate|].
  rewrite Hname. reflexivity.
Defined.

(** [getNoteName] and [isBlackKey] do not validate the pitch: for a negative
    integer pitch that is not a multiple of 12, [midi % 12] is negative, so
    the note name is [undefined], the label reads "undefined" followed by the
    octave number, and the key is never taken for a black one. *)
Theorem names_of_negative_pitches (m : Z) :
  m < 0 ->
  Z.rem m 12 <> 0 ->
  note_of (inject_Z m) = None
  /\ getNoteName (inject_Z m) = "undefined" ++ Js.toString (m / 12 - 1)
  /\ isBlackKey (inject_Z m) = false.
Proof.
  intros Hm Hrem.
  assert (Hr : (Js.rem (inject_Z m) 12 == inject_Z (Z.rem m 12))%Q).
  { change 12%Q with (inject_Z 12). apply rem_int. lia. }
  assert (Hneg : Z.rem m 12 < 0).
  { pose proof (Z.rem_nonpos m 12). lia. }
  assert (Hnote : note_of (inject_Z m) = None).
  { unfold note_of. exact (at_index_negative _ _ _ Hr Hneg). }
  split; [exact Hnote|]. split.
  - unfold getNoteName. rewrite Hnote, octave_of_int. reflexivity.
  - rewrite (isBlackKey_rem m _ Hr).
    repeat (apply orb_false_intro); apply Z.eqb_neq; lia.
Qed.

Lemma names_of_negative_pitches_witness :
  getNoteName (-1) = "undefined-2" /\ isBlackKey (-11) = false.
Proof.
  split.
  - destruct (names_of_negative_pitches (-1)) as (_ & Hname & _);
      [reflexivity | discriminate |].
    change (getNoteName (inject_Z (-1)) = "undefined-2").
    rewrite Hname. reflexivity.
  - apply (names_of_negative_pitches (-11)); [reflexivity | discriminate].
Defined.

(** The labels of the key column are pairwise different: no two of the 88
    rows, from C8 down to A0, carry the same name. *)
Theorem key_labels_distinct (p : PianoRoll.Props) :
  NoDup (map (fun r => getNoteName (PianoRoll.row_midi r)) (PianoRoll.key_rows p)).
Proof.
  assert (E : List.nodup string_dec
                (map (fun r => getNoteName (PianoRoll.row_midi r))
                     (PianoRoll.key_rows p))
              = map (fun r => getNoteName (PianoRoll.row_midi r))
                    (PianoRoll.key_rows p)).
  { vm_compute. reflexivity. }
  rewrite <- E. apply NoDup_nodup.
Qed.

End KeyNames.

(* ------------------------------------------------------------------ *)
(** ** PianoRoll.tsx: the canvas *)

Module Canvas.

Import Constants Types PianoRoll Geometry.

(** A key outside the rows of a column is not found in it. *)
Lemma stacked_find_none (h : Q) (m : Z) :
  forall (k start : nat) (y0 : Q),
    (108 - m < Z.of_nat start \/ Z.of_nat start + Z.of_nat k <= 108 - m)%Z ->
    List.find (fun ry => Qeq_bool (row_midi (fst ry)) (inject_Z m))
      (stacked
         (map (fun i => {| row_midi := MAX_MIDI - inject_Z (Z.of_nat i);
                           row_height := h |}) (seq start k)) y0)
    = None.
Proof.
  induction k as [|k IH]; intros start y0 Hout; [reflexivity|].
  cbn [seq map stacked List.find fst row_midi row_height].
  destruct (Qeq_bool (MAX_MIDI - inject_Z (Z.of_nat start)) (inject_Z m)) eqn:E.
  - apply Qeq_bool_iff, row_midi_hit in E. lia.
  - apply IH. lia.
Qed.

(** The key column has a row for a key exactly when the key is one of the
    88 keys from 21 to 108. *)
Theorem key_column_complete (p : Props) (m : Z) :
  key_pixelY p m = None <-> ~ (21 <= m <= 108)%Z.
Proof.
  split.
  - intros Hnone Hm.
    destruct (key_pixelY_formula p m Hm) as (y & Hy & _). congruence.
  - intros Hout. unfold key_pixelY, key_layout, key_rows.
    rewrite stacked_find_none; [reflexivity|].
    change (Z.of_nat key_count) with 88%Z. change (Z.of_nat 0) with 0%Z. lia.
Qed.

(** The rows tile the column: the row of key 108 is at the top of the
    column, each row lies one row height below the row of the next higher
    key, and the row of key 21 ends where the column ends, [TOTAL_HEIGHT]
    below its top. *)
Theorem key_rows_tile_column (p : Props) :
  (exists y, key_pixelY p 108 = Some y /\ y == key_column_top p)
  /\ (forall m : Z,
        (21 <= m < 108)%Z ->
        exists y y',
          key_pixelY p m = Some y /\ key_pixelY p (m + 1) = Some y'
          /\ y == y' + NOTE_HEIGHT p)
  /\ (exists y, key_pixelY p 21 = Some y
                /\ y + NOTE_HEIGHT p == key_column_top p + TOTAL_HEIGHT p).
Proof.
  split; [|split].
  - destruct (key_pixelY_formula p 108) as (y & Hy & Hv); [lia|].
    exists y. split; [exact Hy|]. rewrite Hv. unfold key_column_top.
    change (inject_Z 108) with 108. ring.
  - intros m Hm.
    destruct (key_pixelY_formula p m) as (y & Hy & Hv); [lia|].
    destruct (key_pixelY_formula p (m + 1)) as (y' & Hy' & Hv'); [lia|].
    exists y, y'. split; [exact Hy|]. split; [exact Hy'|].
    rewrite Hv, Hv', inject_Z_plus. unfold NOTE_HEIGHT.
    change (inject_Z 1) with 1. ring.
  - destruct (key_pixelY_formula p 21) as (y & Hy & Hv); [lia|].
    exists y. split; [exact Hy|]. rewrite Hv.
    unfold key_column_top, TOTAL_HEIGHT, NOTE_HEIGHT, MAX_MIDI, MIN_MIDI.
    change (inject_Z 21) with 21. ring.
Qed.

(** Grid and key column stay aligned: whatever the zoom and the scroll
    offset, the block of a note whose pitch is the integer [m] of [21,108]
    is drawn at the ordinate of the row of key [m]. *)
Theorem note_aligned_with_key (p : Props) (note : Note) (m : Z) :
  (21 <= m <= 108)%Z ->
  midi note == inject_Z m ->
  exists y, key_pixelY p m = Some y /\ note_pixelY p note == y.
Proof.
  intros Hm Hmidi.
  destruct (key_pixelY_formula p m Hm) as (y & Hy & Hv).
  exists y. split; [exact Hy|].
  rewrite note_pixelY_formula, Hv, Hmidi. reflexivity.
Qed.

Lemma note_aligned_with_key_witness :
  exists y, key_pixelY Scenario.scenario_props 60 = Some y
            /\ note_pixelY Scenario.scenario_props Scenario.scenario_note == y.
Proof.
  apply (note_aligned_with_key Scenario.scenario_props Scenario.scenario_note 60).
  - lia.
  - reflexivity.
Defined.

Lemma key_rows_tile_column_witness :
  exists y y',
    key_pixelY Scenario.scenario_props 59 = Some y
    /\ key_pixelY Scenario.scenario_props (59 + 1) = Some y'
    /\ y == y' + 24.
Proof.
  destruct (key_rows_tile_column Scenario.scenario_props) as (_ & Hstep & _).
  apply (Hstep 59%Z). lia.
Defined.

End Canvas.

(* ------------------------------------------------------------------ *)
(** ** PianoRoll.tsx: pointer events *)

Module Pointer.

Import Constants Types Web AppState App NoteStore UI Drag.

Lemma props_toolMode (s : State) (p : PianoRoll.Props) :
  props s = Some p -> PianoRoll.toolMode p = toolMode s.
Proof.
  unfold props. destruct (analysis s), (audioBuffer s); try discriminate.
  intros H. injection H as <-. reflexivity.
Qed.

Lemma props_notes (s : State) (p : PianoRoll.Props) (a : AudioAnalysisResult) :
  props s = Some p -> analysis s = Some a -> PianoRoll.notes p = notes a.
Proof.
  unfold props. intros H Ha. rewrite Ha in H.
  destruct (audioBuffer s); try discriminate.
  injection H as <-. reflexivity.
Qed.

Lemma screen_eta (u : Screen) : {| app := app u; dragState := dragState u |} = u.
Proof. destruct u. reflexivity. Qed.

(** With the pencil, the cut or the zoom tool, a pointer-down on a note
    changes nothing: no selection, no drag. *)
Theorem pointer_down_other_tool (u : Screen) (e : PianoRoll.MouseEvent) (note : Note) :
  toolMode (app u) <> POINTER -> noteMouseDown e note u = u.
Proof.
  intros Ht. unfold noteMouseDown.
  destruct (props (app u)) as [p|] eqn:Hp; [|reflexivity].
  unfold PianoRoll.handleNoteMouseDown. rewrite (props_toolMode _ _ Hp).
  destruct (toolMode (app u)); try contradiction;
    cbn [ToolMode_eqb]; rewrite next_callbacks_nil; apply screen_eta.
Qed.

Lemma pointer_down_other_tool_witness :
  noteMouseDown (PianoRoll.mkMouse 300 400) Scenario.scenario_note
    Scenario.pencil_screen
  = Scenario.pencil_screen.
Proof. apply pointer_down_other_tool. discriminate. Defined.

End Pointer.

Module Click.

Import Constants Types Web AppState App NoteStore UI Drag Pointer.

Lemma flag_one_selected (i : string) (n : Note) :
  is_selected (flag [i] n) = String.eqb i (id n).
Proof.
  unfold is_selected, flag, includes. cbn [selected id existsb].
  rewrite orb_false_r. destruct (String.eqb i (id n)); reflexivity.
Qed.

Lemma filter_none {A : Type} (f : A -> bool) (xs : list A) :
  (forall x, In x xs -> f x = false) -> filter f xs = [].
Proof.
  induction xs as [|x xs IH]; intros H; [reflexivity|].
  cbn [filter]. rewrite (H x (or_introl eq_refl)).
  apply IH. intros y Hy. apply H. right. exact Hy.
Qed.

(** In a collection with pairwise different identifiers, one note carries
    the identifier of a given member. *)
Lemma one_note_per_id (ns : list Note) (note : Note) :
  NoDup (map id ns) -> In note ns ->
  List.length (filter (fun n => String.eqb (id note) (id n)) ns) = 1%nat.
Proof.
  induction ns as [|n ns IH]; intros Hnd Hin; [destruct Hin|].
  cbn [map] in Hnd. inversion Hnd as [|x xs Hnotin Hnd']. subst.
  cbn [filter]. destruct Hin as [-> | Hin].
  - rewrite String.eqb_refl. cbn [List.length]. f_equal.
    rewrite filter_none; [reflexivity|].
    intros x Hx. destruct (String.eqb (id note) (id x)) eqn:E; [|reflexivity].
    apply String.eqb_eq in E. exfalso. apply Hnotin. rewrite E.
    apply in_map. exact Hx.
  - destruct (String.eqb (id note) (id n)) eqn:E.
    + apply String.eqb_eq in E. exfalso. apply Hnotin. rewrite <- E.
      apply in_map. exact Hin.
    + apply IH; assumption.
Qed.

Lemma count_flag_one (i : string) (ns : list Note) :
  List.length (filter is_selected (map (flag [i]) ns))
  = List.length (filter (fun n => String.eqb i (id n)) ns).
Proof.
  induction ns as [|n ns IH]; [reflexivity|].
  cbn [map filter]. rewrite flag_one_selected.
  destruct (String.eqb i (id n)); cbn [List.length]; rewrite IH; reflexivity.
Qed.

(** A click on a note with the pointer tool: the drag records the note and
    where the pointer and the note were; every note keeps its place,
    identifier, pitch, times and velocity; the clicked note is flagged and
    every other note is unflagged; nothing else of the app changes.  When
    the identifiers are pairwise different and the note is one of the
    collection, the footer counts exactly one selected note. *)
Theorem click_selects_one
    (u : Screen) (a : AudioAnalysisResult) (b : AudioBuffer)
    (e : PianoRoll.MouseEvent) (note : Note) :
  analysis (app u) = Some a ->
  audioBuffer (app u) = Some b ->
  toolMode (app u) = POINTER ->
  let u' := noteMouseDown e note u in
  dragState u'
  = Some (PianoRoll.mkDrag (id note) (PianoRoll.clientX e) (PianoRoll.clientY e)
            (startTime note) (midi note))
  /\ (exists a',
        app u' = with_analysis (Some a') (app u)
        /\ key a' = key a /\ scale a' = scale a /\ bpm a' = bpm a
        /\ List.length (notes a') = List.length (notes a)
        /\ forall (j : nat) (n : Note),
             nth_error (notes a) j = Some n ->
             exists n',
               nth_error (notes a') j = Some n'
               /\ id n' = id n /\ midi n' = midi n /\ startTime n' = startTime n
               /\ Types.duration n' = Types.duration n /\ velocity n' = velocity n
               /\ (selected n' = Some true <-> id n = id note)
               /\ (selected n' = Some false <-> id n <> id note))
  /\ (NoDup (map id (notes a)) -> In note (notes a) ->
      selected_count (app u') = 1%nat).
Proof.
  intros Ha Hb Ht u'. unfold u'.
  rewrite (noteMouseDown_pointer u a b e note Ha Hb Ht).
  cbn [dragState app]. split; [reflexivity|]. split.
  - eexists. split; [reflexivity|]. cbn [key scale bpm notes with_notes].
    repeat split; try reflexivity; try apply length_map.
    intros j n Hn. exists (flag [id note] n).
    rewrite nth_error_map, Hn. split; [reflexivity|].
    assert (Hsel : selected (flag [id note] n)
                   = Some (String.eqb (id note) (id n))).
    { unfold flag, includes. cbn [selected id existsb].
      rewrite orb_false_r. reflexivity. }
    rewrite Hsel. cbn [flag id midi startTime Types.duration velocity].
    repeat split; try reflexivity.
    + intros H. injection H as H. apply String.eqb_eq in H. symmetry. exact H.
    + intros H. rewrite H, String.eqb_refl. reflexivity.
    + intros H Hid. injection H as H. rewrite Hid, String.eqb_refl in H.
      discriminate.
    + intros H. f_equal. apply String.eqb_neq. intros E. apply H. symmetry.
      exact E.
  - intros Hnd Hin. unfold selected_count.
    cbn [analysis with_analysis notes with_notes].
    rewrite count_flag_one. apply one_note_per_id; assumption.
Qed.

Lemma click_selects_one_witness :
  dragState (noteMouseDown (PianoRoll.mkMouse 300 400) Scenario.scenario_note
               Scenario.scenario_screen)
  = Some (PianoRoll.mkDrag (id Scenario.scenario_note) 300 400 5 60)
  /\ selected_count (app (noteMouseDown (PianoRoll.mkMouse 300 400)
                            Scenario.scenario_note Scenario.scenario_screen))
     = 1%nat.
Proof.
  destruct (click_selects_one Scenario.scenario_screen Scenario.scenario_analysis
              {| duration := 40 |} (PianoRoll.mkMouse 300 400)
              Scenario.scenario_note eq_refl eq_refl eq_refl)
    as (Hdrag & _ & Hcount).
  split; [exact Hdrag|]. apply Hcount.
  - repeat constructor. intros [].
  - left. reflexivity.
Defined.

(** A pointer move leaves the screen as it is unless a drag is recorded, the
    pointer tool is chosen and the collection still holds a note with the
    recorded identifier. *)
Theorem pointer_move_idle (u : Screen) (e : PianoRoll.MouseEvent) :
  dragState u = None
  \/ toolMode (app u) <> POINTER
  \/ (exists d a, dragState u = Some d /\ analysis (app u) = Some a
                  /\ ~ In (PianoRoll.drag_id d) (map id (notes a))) ->
  mouseMove e u = u.
Proof.
  intros [Hnone | [Htool | (d & a & Hd & Ha & Hmiss)]].
  - unfold mouseMove. destruct (props (app u)); [|reflexivity].
    rewrite Hnone. cbn [PianoRoll.handleMouseMove].
    rewrite next_callbacks_nil. rewrite <- Hnone. apply screen_eta.
  - apply mouseMove_other_tool. exact Htool.
  - unfold mouseMove. destruct (props (app u)) as [p|] eqn:Hp; [|reflexivity].
    rewrite Hd. unfold PianoRoll.handleMouseMove.
    assert (Hfind : PianoRoll.find_note (PianoRoll.notes p) (PianoRoll.drag_id d)
                    = None).
    { rewrite (props_notes _ _ _ Hp Ha). unfold PianoRoll.find_note.
      destruct (List.find _ (notes a)) as [n|] eqn:E; [|reflexivity].
      apply List.find_some in E. destruct E as (Hin & Heq).
      apply String.eqb_eq in Heq. exfalso. apply Hmiss. rewrite <- Heq.
      apply in_map. exact Hin. }
    rewrite Hfind.
    destruct (ToolMode_eqb (PianoRoll.toolMode p) POINTER);
      rewrite next_callbacks_nil; rewrite <- Hd; apply screen_eta.
Qed.

Lemma pointer_move_idle_witness :
  mouseMove (PianoRoll.mkMouse 10 20) Scenario.scenario_screen
  = Scenario.scenario_screen.
Proof. apply pointer_move_idle. left. reflexivity. Defined.

(** Pointer-up ends the drag and touches nothing else; the pointer moves
    that follow it change nothing. *)
Theorem pointer_up_ends_drag (u : Screen) (es : list PianoRoll.MouseEvent) :
  dragState (mouseUp u) = None
  /\ app (mouseUp u) = app u
  /\ mouseMoves es (mouseUp u) = mouseUp u.
Proof.
  split; [reflexivity|]. split; [reflexivity|].
  unfold mouseMoves. induction es as [|e es IH]; [reflexivity|].
  cbn [fold_left]. rewrite pointer_move_idle; [exact IH | left; reflexivity].
Qed.

End Click.

(* ------------------------------------------------------------------ *)
(** ** PianoRoll.tsx: what a drag changes and what it keeps *)

Module DragFrame.

Import Constants Types Web AppState App NoteStore UI Drag Pointer Click.

Lemma unique_by_id (ns : list Note) (x y : Note) :
  NoDup (map id ns) -> In x ns -> In y ns -> id x = id y -> x = y.
Proof.
  induction ns as [|n ns IH]; intros Hnd Hx Hy Hid; [destruct Hx|].
  cbn [map] in Hnd. inversion Hnd as [|? ? Hnotin Hnd']. subst.
  destruct Hx as [<- | Hx], Hy as [<- | Hy].
  - reflexivity.
  - exfalso. apply Hnotin. rewrite Hid. apply in_map. exact Hy.
  - exfalso. apply Hnotin. rewrite <- Hid. apply in_map. exact Hx.
  - apply IH; assumption.
Qed.

Lemma find_note_found (ns : list Note) (i : string) (found : Note) :
  PianoRoll.find_note ns i = Some found -> In found ns /\ id found = i.
Proof.
  unfold PianoRoll.find_note. intros H. apply List.find_some in H.
  destruct H as (Hin & Heq). apply String.eqb_eq in Heq. auto.
Qed.

Lemma moved_only_refl (i : string) (ns : list Note) : moved_only i ns ns.
Proof. intros j n Hn. exists n. repeat split; auto. Qed.

(** Writing back a moved copy of the note found by identifier keeps
    everything but the pitch and the start time of that note. *)
Lemma moved_only_step (i : string) (ns ns' : list Note) (found : Note) (t m : Q) :
  moved_only i ns ns' ->
  NoDup (map id ns') ->
  PianoRoll.find_note ns' i = Some found ->
  moved_only i ns (map (put_note (PianoRoll.moved found t m)) ns').
Proof.
  intros Hmoved Hnd Hfind j n Hn.
  destruct (find_note_found _ _ _ Hfind) as (Hin & Hid).
  destruct (Hmoved j n Hn) as (n' & Hn' & Hi & Hd & Hv & Hs & Hrest).
  exists (put_note (PianoRoll.moved found t m) n').
  rewrite nth_error_map, Hn'. split; [reflexivity|].
  destruct (String.eqb (id n') (id (PianoRoll.moved found t m))) eqn:E.
  - apply String.eqb_eq in E. rewrite (put_note_same _ _ E).
    cbn [PianoRoll.moved id] in E.
    assert (Hsame : found = n').
    { apply (unique_by_id ns'); auto.
      apply nth_error_In with j. exact Hn'. }
    subst found. cbn [PianoRoll.moved id Types.duration velocity selected].
    repeat split; auto; exfalso; congruence.
  - apply String.eqb_neq in E. rewrite (put_note_other _ _ E).
    repeat split; auto; apply Hrest; assumption.
Qed.

(** The frame kept by a run of pointer moves during a drag. *)
Lemma mouseMoves_moved_from d b vs (s0 : State) (a0 : AudioAnalysisResult)
    (es : list PianoRoll.MouseEvent) :
  In (PianoRoll.drag_id d) (map id (notes a0)) ->
  NoDup (map id (notes a0)) ->
  forall u,
    dragging d b vs (map id (notes a0)) u ->
    moved_from (PianoRoll.drag_id d) s0 a0 u ->
    dragging d b vs (map id (notes a0)) (mouseMoves es u)
    /\ moved_from (PianoRoll.drag_id d) s0 a0 (mouseMoves es u).
Proof.
  intros Hin Hnd. unfold mouseMoves.
  induction es as [|e es IH]; intros u Hdrag Hfrom; [auto|].
  cbn [fold_left]. apply IH.
  - apply mouseMove_keeps_dragging; assumption.
  - destruct (mouseMove_dragging u d b vs _ e Hdrag Hin)
      as (a & found & Ha & Hids & Hfind & _ & ->).
    destruct Hfrom as (a1 & Happ & Hk & Hs & Hb & Hlen & Hmoved).
    assert (Ea : a = a1).
    { rewrite Happ in Ha. cbn [analysis with_analysis] in Ha. congruence. }
    subst a1. eexists. cbn [app]. split.
    + rewrite Happ. reflexivity.
    + cbn [key scale bpm notes with_notes]. repeat split; try assumption.
      * rewrite length_map. exact Hlen.
      * apply moved_only_step; try assumption. rewrite Hids. exact Hnd.
Qed.

End DragFrame.

Module Gesture.

Import Constants Types Web AppState App NoteStore UI Drag Pointer Click DragFrame.

(** [Math.round] is within one half of its argument, and it is 0 on
    arguments from -1/2 up to, but not including, 1/2. *)
Lemma round_near (x : Q) :
  x - (1 # 2) < inject_Z (JsMath.round x) /\ inject_Z (JsMath.round x) <= x + (1 # 2).
Proof.
  unfold JsMath.round.
  pose proof (Qfloor_le (x + (1 # 2))) as Hl.
  pose proof (Qlt_floor (x + (1 # 2))) as Hu.
  rewrite inject_Z_plus in Hu. change (inject_Z 1) with 1 in Hu.
  split; lra.
Qed.

Lemma round_zero (x : Q) :
  - (1 # 2) <= x -> x < 1 # 2 -> JsMath.round x = 0%Z.
Proof.
  intros H1 H2. destruct (round_near x) as (Hl & Hu).
  assert (A : inject_Z (JsMath.round x) < inject_Z 1).
  { change (inject_Z 1) with 1. lra. }
  assert (B : inject_Z (-1) < inject_Z (JsMath.round x)).
  { change (inject_Z (-1)) with (-1). lra. }
  rewrite <- Zlt_Qlt in A, B. lia.
Qed.

(** The notes a drag has written, after the pointer-down [e0] on [note],
    the moves [es] and the move [e]. *)
Lemma gesture_notes
    (u : Screen) (a : AudioAnalysisResult) (b : AudioBuffer) (note : Note)
    (e0 e : PianoRoll.MouseEvent) (es : list PianoRoll.MouseEvent) :
  analysis (app u) = Some a ->
  audioBuffer (app u) = Some b ->
  toolMode (app u) = POINTER ->
  In note (notes a) ->
  exists a',
    analysis (app (mouseMove e (mouseMoves es (noteMouseDown e0 note u))))
    = Some a'
    /\ (exists n, In n (notes a') /\ id n = id note)
    /\ forall n, In n (notes a') -> id n = id note ->
         midi n
         = JsMath.min MAX_MIDI
             (JsMath.max MIN_MIDI
                (midi note
                 + - inject_Z (JsMath.round
                       ((PianoRoll.clientY e - PianoRoll.clientY e0)
                        / zoomY (viewState (app u))))))
         /\ startTime n
            = JsMath.max 0
                (startTime note
                 + (PianoRoll.clientX e - PianoRoll.clientX e0)
                   / zoomX (viewState (app u))).
Proof.
  intros Ha Hb Ht Hnote.
  set (vs := viewState (app u)).
  set (d := PianoRoll.mkDrag (id note) (PianoRoll.clientX e0)
              (PianoRoll.clientY e0) (startTime note) (midi note)).
  assert (Hin : In (PianoRoll.drag_id d) (map id (notes a))).
  { exact (in_map id _ _ Hnote). }
  assert (Hdown : dragging d b vs (map id (notes a)) (noteMouseDown e0 note u)).
  { rewrite (noteMouseDown_pointer u a b _ _ Ha Hb Ht).
    unfold dragging. cbn. repeat split; try assumption.
    eexists. split; [reflexivity|]. apply map_flag_ids. }
  pose proof (mouseMoves_keep_dragging d b vs _ es Hin _ Hdown) as Hmid.
  destruct (mouseMove_dragging _ d b vs _ e Hmid Hin)
    as (a2 & found & Ha2 & Hids & _ & Hfound & ->).
  eexists. split; [reflexivity|]. cbn [notes with_notes]. split.
  - rewrite <- Hids in Hin. apply in_map_iff in Hin.
    destruct Hin as (n0 & Hn0 & Hin0).
    exists (put_note (PianoRoll.moved found
              (JsMath.max 0
                 (PianoRoll.originalTime d
                  + (PianoRoll.clientX e - PianoRoll.startX d) / zoomX vs))
              (JsMath.min MAX_MIDI
                 (JsMath.max MIN_MIDI
                    (PianoRoll.originalMidi d
                     + - inject_Z (JsMath.round
                           ((PianoRoll.clientY e - PianoRoll.startY d)
                            / zoomY vs)))))) n0).
    split; [apply in_map; exact Hin0|]. rewrite put_note_id. exact Hn0.
  - intros n Hn Hid.
    apply in_map_iff in Hn. destruct Hn as (n0 & Hput & _).
    match type of Hput with put_note ?x _ = _ => remember x as upd eqn:Hupd end.
    assert (Hsame : id n0 = id upd).
    { rewrite <- (put_note_id upd n0), Hput, Hid, Hupd. cbn [PianoRoll.moved id].
      rewrite Hfound. reflexivity. }
    rewrite (put_note_same _ _ Hsame) in Hput. subst n upd.
    split; reflexivity.
Qed.

End Gesture.

Module GestureSpec.

Import Constants Types Web AppState App NoteStore UI Drag Pointer Click DragFrame
       Gesture.



(** Pitch snaps to whole rows.  With [zoomY > 0] and a note whose pitch is
    in [21,108], a pointer that is less than half a row height above or
    below where the drag began (from [-zoomY/2] up to, not including,
    [zoomY/2]) leaves the pitch as it was. *)
Theorem small_vertical_move_keeps_pitch
    (u : Screen) (a : AudioAnalysisResult) (b : AudioBuffer) (note : Note)
    (e0 e : PianoRoll.MouseEvent) (es : list PianoRoll.MouseEvent) :
  analysis (app u) = Some a ->
  audioBuffer (app u) = Some b ->
  toolMode (app u) = POINTER ->
  In note (notes a) ->
  0 < zoomY (viewState (app u)) ->
  21 <= midi note <= 108 ->
  - (zoomY (viewState (app u)) / 2)
    <= PianoRoll.clientY e - PianoRoll.clientY e0 ->
  PianoRoll.clientY e - PianoRoll.clientY e0 < zoomY (viewState (app u)) / 2 ->
  exists a',
    analysis (app (mouseMove e (mouseMoves es (noteMouseDown e0 note u))))
    = Some a'
    /\ forall n, In n (notes a') -> id n = id note -> midi n == midi note.
Proof.
  intros Ha Hb Ht Hnote Hz (Hlow & Hhigh) Hup Hdown.
  destruct (gesture_notes u a b note e0 e es Ha Hb Ht Hnote)
    as (a' & Ha' & _ & Hvals).
  exists a'. split; [exact Ha'|].
  intros n Hn Hid. destruct (Hvals n Hn Hid) as (-> & _).
  unfold JsMath.max, JsMath.min, MAX_MIDI, MIN_MIDI.
  set (dy := PianoRoll.clientY e - PianoRoll.clientY e0) in *.
  set (z := zoomY (viewState (app u))) in *.
  clearbody dy z.
  unfold Qdiv in Hup, Hdown. change (/ 2) with (1 # 2) in Hup, Hdown.
  assert (Hr : JsMath.round (dy / z) = 0%Z).
  { apply round_zero.
    - apply Qle_shift_div_l; [exact Hz | lra].
    - apply Qlt_shift_div_r; [exact Hz | lra]. }
  rewrite Hr. change (inject_Z 0) with 0.
  rewrite Q.min_r.
  - rewrite Q.max_r; lra.
  - apply Q.max_lub; lra.
Qed.

Lemma small_vertical_move_keeps_pitch_witness :
  exists a',
    analysis (app (mouseMove (PianoRoll.mkMouse 900 411)
                     (mouseMoves []
                        (noteMouseDown (PianoRoll.mkMouse 300 400)
                           Scenario.scenario_note Scenario.scenario_screen))))
    = Some a'
    /\ forall n, In n (notes a') -> id n = id Scenario.scenario_note ->
         midi n == 60.
Proof.
  apply (small_vertical_move_keeps_pitch Scenario.scenario_screen
           Scenario.scenario_analysis {| duration := 40 |}
           Scenario.scenario_note (PianoRoll.mkMouse 300 400)
           (PianoRoll.mkMouse 900 411) []); try reflexivity.
  - left. reflexivity.
  - split; discriminate.
  - discriminate.
Defined.

End GestureSpec.

Module DragBounds.

Import Constants Types Web AppState App NoteStore UI Drag Pointer Click DragFrame
       Gesture.

(** The block follows the pointer to within half a row.  With [zoomY > 0],
    as long as the clamp to [21,108] is not reached, the block of the
    dragged note has moved down the screen by a whole number of rows that
    differs from the vertical displacement [dy] of the pointer by at most
    half a row height. *)
Theorem block_follows_pointer
    (u : Screen) (a : AudioAnalysisResult) (b : AudioBuffer) (note : Note)
    (e0 e : PianoRoll.MouseEvent) (es : list PianoRoll.MouseEvent) :
  analysis (app u) = Some a ->
  audioBuffer (app u) = Some b ->
  toolMode (app u) = POINTER ->
  In note (notes a) ->
  0 < zoomY (viewState (app u)) ->
  let dy := PianoRoll.clientY e - PianoRoll.clientY e0 in
  let rows := JsMath.round (dy / zoomY (viewState (app u))) in
  21 <= midi note - inject_Z rows <= 108 ->
  exists a',
    analysis (app (mouseMove e (mouseMoves es (noteMouseDown e0 note u))))
    = Some a'
    /\ forall n, In n (notes a') -> id n = id note ->
         midi n == midi note - inject_Z rows
         /\ dy - zoomY (viewState (app u)) / 2
            < (midi note - midi n) * zoomY (viewState (app u))
         /\ (midi note - midi n) * zoomY (viewState (app u))
            <= dy + zoomY (viewState (app u)) / 2.
Proof.
  intros Ha Hb Ht Hnote Hz dy rows (Hlow & Hhigh).
  destruct (gesture_notes u a b note e0 e es Ha Hb Ht Hnote)
    as (a' & Ha' & _ & Hvals).
  exists a'. split; [exact Ha'|].
  intros n Hn Hid. destruct (Hvals n Hn Hid) as (Hm & _).
  fold dy in Hm. fold rows in Hm.
  assert (Hmidi : midi n == midi note - inject_Z rows).
  { rewrite Hm. unfold JsMath.max, JsMath.min, MAX_MIDI, MIN_MIDI.
    rewrite Q.min_r.
    - rewrite Q.max_r; lra.
    - apply Q.max_lub; lra. }
  split; [exact Hmidi|].
  destruct (round_near (dy / zoomY (viewState (app u)))) as (Hl & Hu).
  fold rows in Hl, Hu.
  assert (Hdy : dy == dy / zoomY (viewState (app u)) * zoomY (viewState (app u))).
  { field. intros E. rewrite E in Hz. discriminate. }
  set (z := zoomY (viewState (app u))) in *.
  set (q := dy / z) in *.
  unfold Qdiv. change (/ 2) with (1 # 2).
  assert (Hshift : (midi note - midi n) * z == inject_Z rows * z).
  { rewrite Hmidi. ring. }
  rewrite Hshift, Hdy.
  clearbody q z rows. split; nra.
Qed.

Lemma block_follows_pointer_witness :
  exists a',
    analysis (app (mouseMove (PianoRoll.mkMouse 300 435)
                     (mouseMoves []
                        (noteMouseDown (PianoRoll.mkMouse 300 400)
                           Scenario.scenario_note Scenario.scenario_screen))))
    = Some a'
    /\ forall n, In n (notes a') -> id n = id Scenario.scenario_note ->
         midi n == 59.
Proof.
  destruct (block_follows_pointer Scenario.scenario_screen
              Scenario.scenario_analysis {| duration := 40 |}
              Scenario.scenario_note (PianoRoll.mkMouse 300 400)
              (PianoRoll.mkMouse 300 435) [] eq_refl eq_refl eq_refl)
    as (a' & Ha' & Hrows).
  - left. reflexivity.
  - reflexivity.
  - split; discriminate.
  - exists a'. split; [exact Ha'|].
    intros n Hn Hid. destruct (Hrows n Hn Hid) as (Hm & _).
    rewrite Hm. reflexivity.
Defined.

(** What a pointer move asks the app to write always lies on the canvas.
    With [zoomX > 0] and [zoomY > 0], [handleMouseMove] makes at most one
    call, never a selection change, and the note it passes to
    [onNoteUpdate] has a pitch in [21,108] and a start time of at least 0,
    so that its block starts at or right of the left edge and lies between
    the top and the bottom of the canvas. *)
Theorem drag_update_on_canvas
    (p : PianoRoll.Props) (dragState : option PianoRoll.DragState)
    (e : PianoRoll.MouseEvent) :
  0 < zoomX (PianoRoll.viewState p) ->
  0 < zoomY (PianoRoll.viewState p) ->
  (List.length (PianoRoll.handleMouseMove p dragState e) <= 1)%nat
  /\ forall c, In c (PianoRoll.handleMouseMove p dragState e) ->
       exists n,
         c = PianoRoll.onNoteUpdate n
         /\ 21 <= midi n <= 108
         /\ 0 <= startTime n
         /\ 0 <= PianoRoll.note_left p n
         /\ 0 <= PianoRoll.note_top p n
         /\ PianoRoll.note_top p n + PianoRoll.NOTE_HEIGHT p
            <= PianoRoll.TOTAL_HEIGHT p.
Proof.
  intros Hx Hy. unfold PianoRoll.handleMouseMove.
  destruct dragState as [d|]; [|split; [cbn; lia | intros c []]].
  destruct (ToolMode_eqb (PianoRoll.toolMode p) POINTER);
    [|split; [cbn; lia | intros c []]].
  destruct (PianoRoll.find_note (PianoRoll.notes p) (PianoRoll.drag_id d))
    as [found|]; [|split; [cbn; lia | intros c []]].
  split; [cbn; lia|].
  intros c [<- | []]. eexists. split; [reflexivity|].
  unfold PianoRoll.note_left, PianoRoll.note_top, PianoRoll.TOTAL_HEIGHT,
    PianoRoll.NOTE_HEIGHT, PianoRoll.PIXELS_PER_SECOND in *.
  cbn [PianoRoll.moved midi startTime].
  unfold JsMath.max, JsMath.min, MAX_MIDI, MIN_MIDI.
  match goal with
  | |- context [Qmin 108 (Qmax 21 ?x)] =>
    assert (Hlo : 21 <= Qmin 108 (Qmax 21 x))
      by (apply Q.min_glb; [discriminate | apply Q.le_max_l]);
    assert (Hhi : Qmin 108 (Qmax 21 x) <= 108) by apply Q.le_min_l;
    generalize dependent (Qmin 108 (Qmax 21 x))
  end.
  intros m Hlo Hhi.
  match goal with
  | |- context [Qmax 0 ?x] =>
    assert (Ht : 0 <= Qmax 0 x) by apply Q.le_max_l;
    generalize dependent (Qmax 0 x)
  end.
  intros t Ht.
  generalize dependent (zoomX (PianoRoll.viewState p)).
  generalize dependent (zoomY (PianoRoll.viewState p)).
  intros zy Hzy zx Hzx.
  repeat split; try assumption; nra.
Qed.

Lemma drag_update_on_canvas_witness :
  exists n,
    PianoRoll.handleMouseMove Scenario.scenario_props
      (Some (PianoRoll.mkDrag (id Scenario.scenario_note) 300 400 5 60))
      (PianoRoll.mkMouse (-1000) 5000)
    = [PianoRoll.onNoteUpdate n]
    /\ 21 <= midi n <= 108 /\ 0 <= startTime n.
Proof.
  destruct (drag_update_on_canvas Scenario.scenario_props
              (Some (PianoRoll.mkDrag (id Scenario.scenario_note) 300 400 5 60))
              (PianoRoll.mkMouse (-1000) 5000)) as (_ & Hall);
    [reflexivity | reflexivity |].
  destruct (Hall _ (or_introl eq_refl)) as (n & Hn & Hm & Ht & _).
  exists n. split; [rewrite <- Hn; reflexivity|]. auto.
Defined.

End DragBounds.

Module DragFrameSpec.

Import Constants Types Web AppState App NoteStore UI Drag Pointer Click DragFrame.

(** What a drag keeps.  In a collection with pairwise different
    identifiers, after a pointer-down on a note with the pointer tool and
    any run of pointer moves: the drag still records the same origin; the
    app differs from what it was only in the analysis; key, scale, tempo
    and the number and order of the notes are kept; every note keeps its
    identifier, duration and velocity; the clicked note alone is flagged;
    and every other note keeps its pitch and start time. *)
Theorem drag_keeps_the_rest
    (u : Screen) (a : AudioAnalysisResult) (b : AudioBuffer) (note : Note)
    (e0 : PianoRoll.MouseEvent) (es : list PianoRoll.MouseEvent) :
  analysis (app u) = Some a ->
  audioBuffer (app u) = Some b ->
  toolMode (app u) = POINTER ->
  In note (notes a) ->
  NoDup (map id (notes a)) ->
  let u' := mouseMoves es (noteMouseDown e0 note u) in
  dragState u'
  = Some (PianoRoll.mkDrag (id note) (PianoRoll.clientX e0) (PianoRoll.clientY e0)
            (startTime note) (midi note))
  /\ exists a',
       app u' = with_analysis (Some a') (app u)
       /\ key a' = key a /\ scale a' = scale a /\ bpm a' = bpm a
       /\ List.length (notes a') = List.length (notes a)
       /\ forall (j : nat) (n : Note),
            nth_error (notes a) j = Some n ->
            exists n',
              nth_error (notes a') j = Some n'
              /\ id n' = id n
              /\ Types.duration n' = Types.duration n
              /\ velocity n' = velocity n
              /\ (selected n' = Some true <-> id n = id note)
              /\ (id n <> id note ->
                  midi n' = midi n /\ startTime n' = startTime n).
Proof.
  intros Ha Hb Ht Hnote Hnd u'.
  set (d := PianoRoll.mkDrag (id note) (PianoRoll.clientX e0)
              (PianoRoll.clientY e0) (startTime note) (midi note)).
  set (a1 := with_notes (map (flag [id note]) (notes a)) a).
  assert (Hids : map id (notes a1) = map id (notes a)).
  { apply map_flag_ids. }
  assert (Hdown : noteMouseDown e0 note u
                  = {| app := with_analysis (Some a1) (app u);
                       dragState := Some d |}).
  { apply (noteMouseDown_pointer u a b); assumption. }
  assert (Hin : In (PianoRoll.drag_id d) (map id (notes a1))).
  { rewrite Hids. exact (in_map id _ _ Hnote). }
  assert (Hnd1 : NoDup (map id (notes a1))).
  { rewrite Hids. exact Hnd. }
  destruct (mouseMoves_moved_from d b (viewState (app u)) (app u) a1 es Hin Hnd1
              (noteMouseDown e0 note u)) as (Hdrag & a' & Happ & Hk & Hs & Hb' & Hlen & Hmoved).
  { rewrite Hdown. unfold dragging. cbn. repeat split; try assumption.
    eexists. split; reflexivity. }
  { rewrite Hdown. exists a1. cbn [app]. repeat split; try reflexivity.
    apply moved_only_refl. }
  fold u' in Hdrag, Happ.
  split; [apply Hdrag|].
  exists a'. split; [exact Happ|].
  split; [exact Hk|]. split; [exact Hs|]. split; [exact Hb'|].
  split; [rewrite Hlen; apply length_map|].
  intros j n Hn.
  destruct (Hmoved j (flag [id note] n)) as (n' & Hn' & Hi & Hd & Hv & Hsel & Hrest).
  { cbn [a1 notes with_notes]. rewrite nth_error_map, Hn. reflexivity. }
  exists n'. split; [exact Hn'|]. split; [exact Hi|].
  split; [exact Hd|]. split; [exact Hv|]. split.
  - rewrite Hsel.
    assert (Hflag : selected (flag [id note] n)
                    = Some (String.eqb (id note) (id n))).
    { unfold flag, includes. cbn [selected id existsb].
      rewrite orb_false_r. reflexivity. }
    rewrite Hflag. split.
    + intros H. injection H as H. apply String.eqb_eq in H. symmetry. exact H.
    + intros H. rewrite H, String.eqb_refl. reflexivity.
  - intros Hne. apply Hrest. exact Hne.
Qed.

Lemma drag_keeps_the_rest_witness :
  exists a',
    app (mouseMoves [PianoRoll.mkMouse 350 376; PianoRoll.mkMouse 280 424]
           (noteMouseDown (PianoRoll.mkMouse 300 400) Scenario.scenario_note
              Scenario.scenario_screen))
    = with_analysis (Some a') Scenario.scenario_state
    /\ List.length (notes a') = 1%nat
    /\ bpm a' = 120.
Proof.
  destruct (drag_keeps_the_rest Scenario.scenario_screen
              Scenario.scenario_analysis {| duration := 40 |}
              Scenario.scenario_note (PianoRoll.mkMouse 300 400)
              [PianoRoll.mkMouse 350 376; PianoRoll.mkMouse 280 424]
              eq_refl eq_refl eq_refl)
    as (_ & a' & Happ & _ & _ & Hbpm & Hlen & _).
  - left. reflexivity.
  - repeat constructor. intros [].
  - exists a'. split; [exact Happ|]. split; [exact Hlen | exact Hbpm].
Defined.

End DragFrameSpec.

(* ------------------------------------------------------------------ *)
(** ** PianoRoll.tsx: the width of the canvas *)

Module CanvasWidth.

Import Constants Types PianoRoll.



End CanvasWidth.

(* ------------------------------------------------------------------ *)
(** ** App.tsx: the transport over a session *)

Module Session.

Import Types Web AppState App Transport Clock PauseSpec.

Lemma stop_state (s : State) :
  next stop s
  = mkState (audioContext s) (audioBuffer s) (fileName s) (isAnalyzing s)
      (loadingMessage s) (analysis s) false (currentTime s) (startTimeRef s)
      None (animationFrameRef s) (toolMode s) (viewState s)
  /\ effects stop s
     = (match sourceNodeRef s with Some _ => [source_stop] | None => [] end)
       ++ [cancelAnimationFrame (animationFrameRef s)].
Proof.
  destruct s as [? ? ? ? ? ? ? ? ? src ? ? ?].
  destruct src; split; reflexivity.
Qed.

(** Stopping twice is stopping once: the second [stop] leaves the state as
    the first one left it and does not stop the audio source again; it only
    cancels the same frame again.  The source is stopped by [stop] exactly
    when one is referenced. *)
Theorem stop_twice (s : State) :
  next stop (next stop s) = next stop s
  /\ effects stop (next stop s) = [cancelAnimationFrame (animationFrameRef s)]
  /\ (In source_stop (effects stop s) <-> sourceNodeRef s <> None)
  /\ next handleStop (next handleStop s) = next handleStop s.
Proof.
  destruct s as [? ? ? ? ? ? ? ? ? src ? ? ?].
  destruct src; (split; [reflexivity|]); (split; [reflexivity|]);
    (split; [|reflexivity]); cbn; split.
  - intros _. discriminate.
  - intros _. left. reflexivity.
  - intros [H | []]. discriminate.
  - intros H. contradiction.
Qed.

End Session.

Module SessionFacts.

Import Types Web AppState App Transport Clock PauseSpec Session.

Ltac crush_run :=
  unfold next, effects, run, act, togglePlayPause, handleStop, stop, play, loop,
    setIsPlaying, setCurrentTime, set_startTimeRef, set_sourceNodeRef,
    set_animationFrameRef, modify, bind, get, put, emit, skip, ret;
  cbn [fst snd isPlaying currentTime startTimeRef sourceNodeRef
       animationFrameRef audioBuffer audioContext app List.app].

Lemma play_step (s : State) (now : Q) :
  audioBuffer (next (play now) s) = audioBuffer s
  /\ audioContext (next (play now) s) = audioContext s
  /\ currentTime (next (play now) s) = currentTime s
  /\ ((sourceNodeRef s = None <-> isPlaying s = false) ->
      (sourceNodeRef (next (play now) s) = None
       <-> isPlaying (next (play now) s) = false))
  /\ (forall w o, In (source_start w o) (effects (play now) s) ->
        w = 0 /\ o = currentTime s).
Proof.
  destruct s as [c b ? ? ? ? p t e src f ? ?].
  destruct b as [b|]; [destruct c as [c|]; [destruct c as [[]]|]|];
    crush_run; cbn [state]; cbn [fst snd List.app];
    (split; [reflexivity|]); (split; [reflexivity|]); (split; [reflexivity|]);
    (split; [first [ intros _; split; discriminate | auto ]|]);
    intros w o H; cbn in H;
    repeat (destruct H as [H | H]; try discriminate; try contradiction);
    try (injection H as <- <-; split; reflexivity); try destruct H.
Qed.

Lemma stop_step (s : State) :
  audioBuffer (next stop s) = audioBuffer s
  /\ audioContext (next stop s) = audioContext s
  /\ currentTime (next stop s) = currentTime s
  /\ sourceNodeRef (next stop s) = None
  /\ isPlaying (next stop s) = false
  /\ (forall w o, ~ In (source_start w o) (effects stop s)).
Proof.
  destruct (stop_state s) as (-> & ->).
  repeat split. intros w o H. apply in_app_or in H.
  destruct (sourceNodeRef s); cbn in H; intuition discriminate.
Qed.

Lemma handleStop_step (s : State) :
  audioBuffer (next handleStop s) = audioBuffer s
  /\ audioContext (next handleStop s) = audioContext s
  /\ currentTime (next handleStop s) = 0
  /\ sourceNodeRef (next handleStop s) = None
  /\ isPlaying (next handleStop s) = false
  /\ (forall w o, ~ In (source_start w o) (effects handleStop s)).
Proof.
  destruct s as [c b ? ? ? ? p t e src f ? ?].
  destruct src; crush_run; repeat split; intros w o H; cbn in H;
    intuition discriminate.
Qed.

(** What any action keeps. *)
Lemma act_step (a : Action) (s : State) :
  audioBuffer (next (act a) s) = audioBuffer s
  /\ audioContext (next (act a) s) = audioContext s
  /\ ((sourceNodeRef s = None <-> isPlaying s = false) ->
      (sourceNodeRef (next (act a) s) = None
       <-> isPlaying (next (act a) s) = false))
  /\ (forall b, audioBuffer s = Some b -> 0 < duration b ->
        currentTime s < duration b ->
        currentTime (next (act a) s) < duration b)
  /\ (forall w o, In (source_start w o) (effects (act a) s) ->
        isPlaying s = false /\ w = 0 /\ o = currentTime s).
Proof.
  destruct a as [now | | now handle]; cbn [act].
  - destruct (Bool.bool_dec (isPlaying s) true) as [Hp | Hp];
      [|apply not_true_is_false in Hp].
    + destruct (stop_step s) as (Hb & Hc & Ht & Hsrc & Hoff & Hno).
      unfold next, effects in *. rewrite (toggle_playing s now Hp).
      split; [exact Hb|]. split; [exact Hc|]. split; [|split].
      * intros _. rewrite Hsrc, Hoff. split; reflexivity.
      * intros b _ _ Hlt. rewrite Ht. exact Hlt.
      * intros w o H. destruct (Hno w o H).
    + destruct (play_step s now) as (Hb & Hc & Ht & Hinv & Hst).
      unfold next, effects in *. rewrite (toggle_stopped s now Hp).
      split; [exact Hb|]. split; [exact Hc|]. split; [|split].
      * exact Hinv.
      * intros b _ _ Hlt. rewrite Ht. exact Hlt.
      * intros w o H. destruct (Hst w o H). auto.
  - destruct (handleStop_step s) as (Hb & Hc & Ht & Hsrc & Hoff & Hno).
    split; [exact Hb|]. split; [exact Hc|]. split; [|split].
    + intros _. rewrite Hsrc, Hoff. split; reflexivity.
    + intros b _ Hd _. rewrite Ht. exact Hd.
    + intros w o H. destruct (Hno w o H).
  - destruct (loop_cases s now handle) as [Hidle | [Hend | (Hplay & Htime)]].
    + unfold next, effects. rewrite Hidle. cbn [fst snd].
      split; [reflexivity|]. split; [reflexivity|]. split; [|split].
      * auto.
      * intros b _ _ Hlt. exact Hlt.
      * intros w o [].
    + destruct (handleStop_step s) as (Hb & Hc & Ht & Hsrc & Hoff & Hno).
      unfold next, effects in *. rewrite Hend.
      split; [exact Hb|]. split; [exact Hc|]. split; [|split].
      * intros _. rewrite Hsrc, Hoff. split; reflexivity.
      * intros b _ Hd _. rewrite Ht. exact Hd.
      * intros w o H. destruct (Hno w o H).
    + destruct s as [c b ? ? ? ? p t e src f ? ?].
      destruct p; [|cbn in Hplay; discriminate].
      destruct c as [c|];
        [|crush_run; split; [reflexivity|]; split; [reflexivity|];
          split; [auto|]; split; [auto | intros w o []]].
      destruct b as [b|].
      * destruct (Qle_bool (duration b) (now - e)) eqn:E.
        { exfalso. revert Hplay. crush_run. rewrite E.
          destruct src; cbn; discriminate. }
        crush_run. rewrite E. cbn [fst snd isPlaying currentTime sourceNodeRef
                                   audioBuffer audioContext List.app].
        split; [reflexivity|]. split; [reflexivity|]. split; [|split].
        -- auto.
        -- intros b' Hb' _ _. injection Hb' as <-.
           destruct (Qlt_le_dec (now - e) (duration b)) as [Hlt | Hle];
             [exact Hlt|].
           apply Qle_bool_iff in Hle. congruence.
        -- intros w o [H | []]. discriminate.
      * crush_run.
        split; [reflexivity|]. split; [reflexivity|]. split; [|split].
        -- auto.
        -- intros b' Hb'. discriminate.
        -- intros w o [H | []]. discriminate.
Qed.

End SessionFacts.

Module SessionSpec.

Import Types Web AppState App Transport Clock PauseSpec Session SessionFacts.

Lemma session_keeps_source (acts : list Action) :
  forall s,
    (sourceNodeRef s = None <-> isPlaying s = false) ->
    (sourceNodeRef (session acts s) = None <-> isPlaying (session acts s) = false).
Proof.
  unfold session. induction acts as [|x acts IH]; intros s Hinv; [exact Hinv|].
  cbn [fold_left]. apply IH. apply (act_step x s). exact Hinv.
Qed.

(** One audio source at a time.  From a state in which a source is
    referenced exactly when the transport is playing, every run of presses
    of play/pause, presses of stop and frames leads to such a state again;
    and whenever an action then starts a source, the transport is stopped
    and no source is referenced, and the source starts at the current
    playback position. *)
Theorem one_source_at_a_time (s : State) (acts : list Action) (a : Action) :
  (sourceNodeRef s = None <-> isPlaying s = false) ->
  let s' := session acts s in
  (sourceNodeRef s' = None <-> isPlaying s' = false)
  /\ forall w o,
       In (source_start w o) (effects (act a) s') ->
       sourceNodeRef s' = None /\ isPlaying s' = false
       /\ w = 0 /\ o = currentTime s'.
Proof.
  intros Hinv s'.
  assert (Hinv' : sourceNodeRef s' = None <-> isPlaying s' = false).
  { apply session_keeps_source. exact Hinv. }
  split; [exact Hinv'|].
  intros w o H. destruct (act_step a s') as (_ & _ & _ & _ & Hstart).
  destruct (Hstart w o H) as (Hoff & Hw & Ho).
  split; [apply Hinv'; exact Hoff|]. auto.
Qed.

Lemma one_source_at_a_time_witness :
  let s' := session [PressPlayPause 10; Frame 11 1; PressPlayPause 12]
              Scenario.scenario_state in
  (sourceNodeRef s' = None <-> isPlaying s' = false)
  /\ forall w o,
       In (source_start w o) (effects (act (PressPlayPause 20)) s') ->
       sourceNodeRef s' = None /\ isPlaying s' = false
       /\ w = 0 /\ o = currentTime s'.
Proof.
  apply (one_source_at_a_time Scenario.scenario_state
           [PressPlayPause 10; Frame 11 1; PressPlayPause 12]
           (PressPlayPause 20)).
  split; reflexivity.
Defined.

(** The playback position never reaches the end of the clip.  When it is
    below the duration of the loaded clip, it is still below it after every
    run of presses of play/pause, presses of stop and frames, whatever the
    clock readings; and the clip stays loaded. *)
Theorem position_stays_before_end (s : State) (b : AudioBuffer) (acts : list Action) :
  audioBuffer s = Some b ->
  0 < duration b ->
  currentTime s < duration b ->
  audioBuffer (session acts s) = Some b
  /\ currentTime (session acts s) < duration b.
Proof.
  intros Hb Hd. unfold session. revert s Hb.
  induction acts as [|x acts IH]; intros s Hb Hlt; [auto|].
  cbn [fold_left].
  destruct (act_step x s) as (Hb' & _ & _ & Hpos & _).
  apply IH.
  - rewrite Hb'. exact Hb.
  - apply Hpos; assumption.
Qed.

Lemma position_stays_before_end_witness :
  currentTime (session [PressPlayPause 10; Frame 30 1; Frame 49 2; Frame 51 3;
                        PressPlayPause 60; Frame 200 4]
                 Scenario.scenario_state) < 40.
Proof.
  apply (position_stays_before_end Scenario.scenario_state {| duration := 40 |});
    reflexivity.
Defined.

(** Time spent paused is not played.  From a stopped transport with a clip
    loaded at position [t0]: play, a frame [d1] later, pause at any time,
    play again at any time and a frame [d2] after that report the position
    [t0 + d1 + d2], as long as this is before the end of the clip. *)
Theorem paused_time_is_not_played
    (s : State) (b : AudioBuffer) (c : AudioContext)
    (now0 now1 now2 d1 d2 : Q) (h1 h2 : nat) :
  audioBuffer s = Some b ->
  audioContext s = Some c ->
  isPlaying s = false ->
  currentTime s + d1 < duration b ->
  currentTime s + d1 + d2 < duration b ->
  let s' := session [PressPlayPause now0; Frame (now0 + d1) h1;
                     PressPlayPause now1;
                     PressPlayPause now2; Frame (now2 + d2) h2] s in
  isPlaying s' = true /\ currentTime s' == currentTime s + d1 + d2.
Proof.
  intros Hb Hc Hoff H1 H2. cbn [session fold_left act].
  (* play *)
  destruct (play_loaded s b c now0 Hb Hc) as (Pp & Pe & _ & Pb & Pc & _).
  assert (E1 : next (togglePlayPause now0) s = next (play now0) s).
  { unfold next. rewrite (toggle_stopped s now0 Hoff). reflexivity. }
  rewrite E1. set (s1 := next (play now0) s) in *.
  (* first frame *)
  destruct (loop_before_end s1 b c (now0 + d1) h1 Pp Pc Pb)
    as (Fp & Ft & Fe & Fb & Fc & _).
  { rewrite Pe, elapsed_since_epoch. exact H1. }
  set (s2 := next (loop (now0 + d1) h1) s1) in *.
  (* pause *)
  assert (E3 : next (togglePlayPause now1) s2 = next stop s2).
  { unfold next. rewrite (toggle_playing s2 now1 Fp). reflexivity. }
  rewrite E3.
  destruct (stop_result s2) as (So & St & _ & Sb & Sc & _).
  set (s3 := next stop s2) in *.
  (* play again *)
  rewrite Fb in Sb. rewrite Fc in Sc.
  destruct (play_loaded s3 b c now2 Sb Sc) as (Qp & Qe & _ & Qb & Qc & _).
  assert (E4 : next (togglePlayPause now2) s3 = next (play now2) s3).
  { unfold next. rewrite (toggle_stopped s3 now2 So). reflexivity. }
  rewrite E4. set (s4 := next (play now2) s3) in *.
  (* second frame *)
  assert (Hpos : currentTime s3 == currentTime s + d1).
  { rewrite St, Ft, Pe. apply elapsed_since_epoch. }
  destruct (loop_before_end s4 b c (now2 + d2) h2 Qp Qc Qb)
    as (Gp & Gt & _).
  { rewrite Qe, elapsed_since_epoch, Hpos. exact H2. }
  split; [exact Gp|].
  rewrite Gt, Qe, elapsed_since_epoch, Hpos. reflexivity.
Qed.

Lemma paused_time_is_not_played_witness :
  currentTime (session [PressPlayPause 10; Frame (10 + 3) 1;
                        PressPlayPause 15;
                        PressPlayPause 100; Frame (100 + 4) 2]
                 Scenario.scenario_state) == 0 + 3 + 4.
Proof.
  apply (paused_time_is_not_played Scenario.scenario_state {| duration := 40 |}
           {| state := running |} 10 15 100 3 4 1 2); reflexivity.
Defined.

(** The frame that gets cancelled is the frame requested last.  The effect
    of the playing flag requests a frame only while playing and records its
    handle; a frame before the end of the clip requests the next frame and
    records its handle; and the cleanup of the effect and [stop] cancel the
    handle recorded last. *)
Theorem latest_frame_is_cancelled (s : State) (handle : nat) :
  (isPlaying s = false -> run (effect_body handle) s = (s, []))
  /\ (isPlaying s = true ->
      effects (effect_body handle) s = [requestAnimationFrame handle]
      /\ effects effect_cleanup (next (effect_body handle) s)
         = [cancelAnimationFrame handle]
      /\ In (cancelAnimationFrame handle)
            (effects stop (next (effect_body handle) s)))
  /\ (forall (b : AudioBuffer) (c : AudioContext) (now : Q),
        isPlaying s = true -> audioContext s = Some c -> audioBuffer s = Some b ->
        now - startTimeRef s < duration b ->
        effects (loop now handle) s = [requestAnimationFrame handle]
        /\ effects effect_cleanup (next (loop now handle) s)
           = [cancelAnimationFrame handle]
        /\ In (cancelAnimationFrame handle)
              (effects stop (next (loop now handle) s))).
Proof.
  split; [|split].
  - intros Hp. unfold run, effect_body. rewrite Hp. reflexivity.
  - intros Hp. destruct s as [? ? ? ? ? ? p ? ? src ? ? ?].
    cbn [isPlaying] in Hp. subst p.
    split; [reflexivity|]. split; [reflexivity|].
    destruct src; cbn; auto.
  - intros b c now Hp Hc Hb Hlt.
    assert (Hno : Qle_bool (duration b) (now - startTimeRef s) = false).
    { destruct (Qle_bool (duration b) (now - startTimeRef s)) eqn:E;
        [|reflexivity].
      apply Qle_bool_iff in E. exfalso. exact (Qlt_not_le _ _ Hlt E). }
    destruct s as [? ? ? ? ? ? p ? ? src ? ? ?].
    cbn [isPlaying audioContext audioBuffer startTimeRef] in *. subst.
    unfold next, effects, run, loop, bind, get.
    cbn [isPlaying audioContext audioBuffer startTimeRef].
    rewrite Hno. split; [reflexivity|]. split; [reflexivity|].
    destruct src; cbn; auto.
Qed.

Lemma latest_frame_is_cancelled_witness :
  effects (loop 12 9) Scenario.late_state = [requestAnimationFrame 9]
  /\ In (cancelAnimationFrame 9) (effects stop (next (loop 12 9) Scenario.late_state)).
Proof.
  destruct (latest_frame_is_cancelled Scenario.late_state 9) as (_ & _ & Hloop).
  destruct (Hloop {| duration := 40 |} {| state := running |} 12
              eq_refl eq_refl eq_refl) as (Hreq & _ & Hcancel); [reflexivity|].
  split; [exact Hreq | exact Hcancel].
Defined.

End SessionSpec.

(* ------------------------------------------------------------------ *)
(** ** App.tsx: uploads that are not rejected for their size *)

Module UploadFacts.

Import Types Web AppState App.
Local Open Scope string_scope.

Lemma last_nonempty {A : Type} (x : A) (xs : list A) (d d' : A) :
  last (x :: xs) d = last (x :: xs) d'.
Proof.
  revert x. induction xs as [|y ys IH]; intros x; [reflexivity|].
  change (last (y :: ys) d = last (y :: ys) d'). apply IH.
Qed.

(** The progress messages only change the loading message: the last one
    stays. *)
Lemma report_result (msgs : list string) :
  forall st : State,
    report msgs st
    = (tt,
       mkState (audioContext st) (audioBuffer st) (fileName st) (isAnalyzing st)
         (last msgs (loadingMessage st)) (analysis st) (isPlaying st)
         (currentTime st) (startTimeRef st) (sourceNodeRef st)
         (animationFrameRef st) (toolMode st) (viewState st),
       []).
Proof.
  induction msgs as [|m msgs IH]; intros st.
  - destruct st. reflexivity.
  - cbn [report]. unfold setLoadingMessage, modify, get, put, bind.
    cbn beta iota. rewrite IH. cbn [audioContext audioBuffer fileName isAnalyzing
      loadingMessage analysis isPlaying currentTime startTimeRef sourceNodeRef
      animationFrameRef toolMode viewState List.app].
    f_equal. f_equal. f_equal.
    destruct msgs as [|m' msgs]; [reflexivity|].
    apply (last_nonempty m' msgs).
Qed.

End UploadFacts.

Module UploadCases.

Import Types Web AppState App UploadFacts.
Local Open Scope string_scope.

Section Collaborators.

Variable new_AudioContext : AudioContext.
Variable decodeAudio : File -> AudioContext -> option AudioBuffer.
Variable fileToBase64 : File -> option string.
Variable analyzeAudioWithGemini :
  string -> string -> list string * option AudioAnalysisResult.

Let upload (files : option (list File)) : Handler :=
  handleFileUpload new_AudioContext decodeAudio fileToBase64
    analyzeAudioWithGemini files.

Ltac reduce_upload :=
  cbv beta iota zeta delta
    [upload next effects run handleFileUpload getAudioContext on_error
     setFileName setIsAnalyzing setLoadingMessage setAudioContext
     setAudioBuffer setAnalysis with_analysis modify get put emit skip ret
     bind nth_error fst snd List.app
     audioContext audioBuffer fileName isAnalyzing loadingMessage analysis
     isPlaying currentTime startTimeRef sourceNodeRef animationFrameRef
     toolMode viewState].

(** Everything an upload does once the file has passed the size test. *)
Lemma accepted_upload_cases (s : State) (file : File) (others : list File) :
  (size file <= 50 * 1024 * 1024)%N ->
  let ctx := match audioContext s with Some c => c | None => new_AudioContext end in
  let s' := next (upload (Some (file :: others))) s in
  let es := effects (upload (Some (file :: others))) s in
  fileName s' = Some (name file)
  /\ isAnalyzing s' = false
  /\ audioContext s' = Some ctx
  /\ (isPlaying s' = isPlaying s /\ currentTime s' = currentTime s
      /\ startTimeRef s' = startTimeRef s /\ sourceNodeRef s' = sourceNodeRef s
      /\ animationFrameRef s' = animationFrameRef s
      /\ toolMode s' = toolMode s /\ viewState s' = viewState s)
  /\ match decodeAudio file ctx with
     | None =>
       es = [call_decodeAudio file; console_error "Failed to load/analyze:";
             alert "Error procesando audio. Revisa la consola y la clave API."]
       /\ audioBuffer s' = audioBuffer s
       /\ analysis s' = analysis s
       /\ loadingMessage s' = "Decodificando datos de audio..."
     | Some buffer =>
       audioBuffer s' = Some buffer
       /\ match fileToBase64 file with
          | None =>
            es = [call_decodeAudio file; call_fileToBase64 file;
                  console_error "Failed to load/analyze:";
                  alert "Error procesando audio. Revisa la consola y la clave API."]
            /\ analysis s' = analysis s
            /\ loadingMessage s' = "Preparando audio para IA Gemini..."
          | Some base64 =>
            loadingMessage s'
            = last (fst (analyzeAudioWithGemini base64 (type file)))
                   "Preparando audio para IA Gemini..."
            /\ match snd (analyzeAudioWithGemini base64 (type file)) with
               | None =>
                 es = [call_decodeAudio file; call_fileToBase64 file;
                       call_analyzeAudioWithGemini base64 (type file);
                       console_error "Failed to load/analyze:";
                       alert "Error procesando audio. Revisa la consola y la clave API."]
                 /\ analysis s' = analysis s
               | Some result =>
                 es = [call_decodeAudio file; call_fileToBase64 file;
                       call_analyzeAudioWithGemini base64 (type file)]
                 /\ analysis s' = Some result
               end
          end
     end.
Proof.
  intros Hsize ctx s' es.
  assert (Htest : (SIZE_LIMIT <? size file)%N = false).
  { apply N.ltb_ge. exact Hsize. }
  subst s' es. destruct s as [c b ? ? ? ? ? ? ? ? ? ? ?].
  cbn [audioContext] in ctx.
  destruct c as [c|]; subst ctx; reduce_upload; rewrite Htest; reduce_upload.
  - destruct (decodeAudio file c) as [buffer|];
      [|repeat split; reflexivity].
    destruct (fileToBase64 file) as [base64|];
      [|repeat split; reflexivity].
    destruct (analyzeAudioWithGemini base64 (type file)) as [msgs [result|]];
      rewrite report_result; reduce_upload; repeat split; reflexivity.
  - destruct (decodeAudio file new_AudioContext) as [buffer|];
      [|repeat split; reflexivity].
    destruct (fileToBase64 file) as [base64|];
      [|repeat split; reflexivity].
    destruct (analyzeAudioWithGemini base64 (type file)) as [msgs [result|]];
      rewrite report_result; reduce_upload; repeat split; reflexivity.
Qed.

End Collaborators.

End UploadCases.

Module UploadMore.

Import Types Web AppState App UploadFacts UploadCases.
Local Open Scope string_scope.

Lemma rejected_run
    (new_AudioContext : AudioContext)
    (decodeAudio : File -> AudioContext -> option AudioBuffer)
    (fileToBase64 : File -> option string)
    (analyzeAudioWithGemini : string -> string -> list string * option AudioAnalysisResult)
    (s : State) (file : File) (others : list File) :
  (50 * 1024 * 1024 < size file)%N ->
  run (handleFileUpload new_AudioContext decodeAudio fileToBase64
         analyzeAudioWithGemini (Some (file :: others))) s
  = (s, [alert too_large_message]).
Proof.
  intros Hsize. unfold run, handleFileUpload. cbn [nth_error].
  apply N.ltb_lt in Hsize. unfold SIZE_LIMIT. rewrite Hsize. reflexivity.
Qed.

(** The gate of the upload.  Without a file (no file list, or an empty
    one) the handler does nothing.  With a file, the too-large alert is
    raised exactly when the file is larger than [50 * 1024 * 1024] bytes: a
    file of that size or less is always handed to the decoder. *)
Theorem upload_gate
    (new_AudioContext : AudioContext)
    (decodeAudio : File -> AudioContext -> option AudioBuffer)
    (fileToBase64 : File -> option string)
    (analyzeAudioWithGemini : string -> string -> list string * option AudioAnalysisResult)
    (s : State) (file : File) (others : list File) :
  let upload := handleFileUpload new_AudioContext decodeAudio fileToBase64
                  analyzeAudioWithGemini in
  run (upload None) s = (s, [])
  /\ run (upload (Some [])) s = (s, [])
  /\ (In (alert too_large_message) (effects (upload (Some (file :: others))) s)
      <-> (50 * 1024 * 1024 < size file)%N)
  /\ (In (call_decodeAudio file) (effects (upload (Some (file :: others))) s)
      <-> (size file <= 50 * 1024 * 1024)%N).
Proof.
  intros upload. split; [reflexivity|]. split; [reflexivity|].
  destruct (N.lt_ge_cases (50 * 1024 * 1024) (size file)) as [Hbig | Hok].
  - pose proof (rejected_run new_AudioContext decodeAudio fileToBase64
                  analyzeAudioWithGemini s file others Hbig) as Hrun.
    unfold upload, effects. rewrite Hrun. cbn [snd]. split; split.
    + intros _. exact Hbig.
    + intros _. left. reflexivity.
    + intros [H | []]. discriminate.
    + intros H. lia.
  - destruct (accepted_upload_cases new_AudioContext decodeAudio fileToBase64
                analyzeAudioWithGemini s file others Hok)
      as (_ & _ & _ & _ & Hcases).
    unfold upload.
    set (es := effects _ s) in *.
    assert (Hes : In (call_decodeAudio file) es
                  /\ ~ In (alert too_large_message) es).
    { destruct (decodeAudio file _) as [buffer|].
      - destruct Hcases as (_ & Hcases).
        destruct (fileToBase64 file) as [base64|].
        + destruct Hcases as (_ & Hcases).
          destruct (snd (analyzeAudioWithGemini base64 (type file))) as [r|];
            destruct Hcases as (-> & _); split;
            [left; reflexivity | | left; reflexivity |];
            cbn; intuition discriminate.
        + destruct Hcases as (-> & _). split; [left; reflexivity|].
          cbn; intuition discriminate.
      - destruct Hcases as (-> & _). split; [left; reflexivity|].
        cbn; intuition discriminate. }
    destruct Hes as (Hdec & Hnoalert). split; split.
    + intros H. contradiction.
    + intros H. lia.
    + intros _. exact Hok.
    + intros _. exact Hdec.
Qed.

End UploadMore.

Module UploadOutcome.

Import Types Web AppState App UploadFacts UploadCases UploadMore.
Local Open Scope string_scope.

Section Collaborators.

Variable new_AudioContext : AudioContext.
Variable decodeAudio : File -> AudioContext -> option AudioBuffer.
Variable fileToBase64 : File -> option string.
Variable analyzeAudioWithGemini :
  string -> string -> list string * option AudioAnalysisResult.

Let upload (files : option (list File)) : Handler :=
  handleFileUpload new_AudioContext decodeAudio fileToBase64
    analyzeAudioWithGemini files.

(** A successful upload.  When the file passes the size test and the
    decoder, the encoder and the service all succeed, the app ends with the
    decoded buffer, the file name and the analysis of the service, the
    spinner down and the last progress message of the service shown; the
    three collaborators were called once each, in this order, the service
    with the encoded file and its MIME type, and nobody was alerted. *)
Theorem upload_succeeds
    (s : State) (file : File) (others : list File) (ctx : AudioContext)
    (buffer : AudioBuffer) (base64 : string) (msgs : list string)
    (result : AudioAnalysisResult) :
  (size file <= 50 * 1024 * 1024)%N ->
  ctx = match audioContext s with Some c => c | None => new_AudioContext end ->
  decodeAudio file ctx = Some buffer ->
  fileToBase64 file = Some base64 ->
  analyzeAudioWithGemini base64 (type file) = (msgs, Some result) ->
  let s' := next (upload (Some (file :: others))) s in
  analysis s' = Some result
  /\ audioBuffer s' = Some buffer
  /\ audioContext s' = Some ctx
  /\ fileName s' = Some (name file)
  /\ isAnalyzing s' = false
  /\ loadingMessage s' = last msgs "Preparando audio para IA Gemini..."
  /\ effects (upload (Some (file :: others))) s
     = [call_decodeAudio file; call_fileToBase64 file;
        call_analyzeAudioWithGemini base64 (type file)].
Proof.
  intros Hsize Hctx Hdec Hb64 Han s'. subst s'. unfold upload.
  destruct (accepted_upload_cases new_AudioContext decodeAudio fileToBase64
              analyzeAudioWithGemini s file others Hsize)
    as (Hname & Hspin & Hc & _ & Hcases).
  rewrite <- Hctx in Hc, Hcases. rewrite Hdec, Hb64, Han in Hcases.
  destruct Hcases as (Hbuf & Hmsg & Hes & Hres).
  repeat split; assumption.
Qed.

(** A failed upload.  When the file passes the size test and the decoder,
    the encoder or the service fails, the failure is logged and the user is
    alerted once; the analysis is left as it was and the spinner is taken
    down; the collaborators after the failing one are not called.  The file
    name is nevertheless the name of the new file, and when it was the
    encoder or the service that failed the buffer is the buffer of the new
    file. *)
Theorem upload_fails
    (s : State) (file : File) (others : list File) (ctx : AudioContext) :
  (size file <= 50 * 1024 * 1024)%N ->
  ctx = match audioContext s with Some c => c | None => new_AudioContext end ->
  decodeAudio file ctx = None
  \/ (exists buffer, decodeAudio file ctx = Some buffer
                     /\ fileToBase64 file = None)
  \/ (exists buffer base64,
        decodeAudio file ctx = Some buffer
        /\ fileToBase64 file = Some base64
        /\ snd (analyzeAudioWithGemini base64 (type file)) = None) ->
  let s' := next (upload (Some (file :: others))) s in
  let es := effects (upload (Some (file :: others))) s in
  analysis s' = analysis s
  /\ isAnalyzing s' = false
  /\ fileName s' = Some (name file)
  /\ (exists calls,
        es = (calls
              ++ [console_error "Failed to load/analyze:";
                  alert "Error procesando audio. Revisa la consola y la clave API."])%list
        /\ (decodeAudio file ctx = None ->
            calls = [call_decodeAudio file] /\ audioBuffer s' = audioBuffer s)
        /\ (forall buffer, decodeAudio file ctx = Some buffer ->
            audioBuffer s' = Some buffer
            /\ (fileToBase64 file = None ->
                calls = [call_decodeAudio file; call_fileToBase64 file]))).
Proof.
  intros Hsize Hctx Hfail s' es. subst s' es. unfold upload.
  destruct (accepted_upload_cases new_AudioContext decodeAudio fileToBase64
              analyzeAudioWithGemini s file others Hsize)
    as (Hname & Hspin & _ & _ & Hcases).
  rewrite <- Hctx in Hcases.
  destruct Hfail as [Hdec | [(buffer & Hdec & Hb64)
                            | (buffer & base64 & Hdec & Hb64 & Han)]];
    rewrite Hdec in Hcases.
  - destruct Hcases as (Hes & Hbuf & Hres & _).
    split; [exact Hres|]. split; [exact Hspin|]. split; [exact Hname|].
    exists [call_decodeAudio file]. split; [exact Hes|]. split; [auto|].
    intros buffer H. congruence.
  - rewrite Hb64 in Hcases. destruct Hcases as (Hbuf & Hes & Hres & _).
    split; [exact Hres|]. split; [exact Hspin|]. split; [exact Hname|].
    exists [call_decodeAudio file; call_fileToBase64 file].
    split; [exact Hes|]. split; [intros H; congruence|].
    intros buffer' H. rewrite Hdec in H. injection H as <-. auto.
  - rewrite Hb64, Han in Hcases. destruct Hcases as (Hbuf & _ & Hes & Hres).
    split; [exact Hres|]. split; [exact Hspin|]. split; [exact Hname|].
    exists [call_decodeAudio file; call_fileToBase64 file;
            call_analyzeAudioWithGemini base64 (type file)].
    split; [exact Hes|]. split; [intros H; congruence|].
    intros buffer' H. rewrite Hdec in H. injection H as <-.
    split; [exact Hbuf|]. intros H. congruence.
Qed.

(** What an upload never touches.  Whatever the file and whatever the
    collaborators answer, the transport (playing flag, position, epoch,
    audio source, frame handle), the tool and the view are left as they
    were, and an audio context that exists is kept: a new one is made only
    when there was none. *)
Theorem upload_frame (s : State) (files : option (list File)) :
  let s' := next (upload files) s in
  isPlaying s' = isPlaying s
  /\ currentTime s' = currentTime s
  /\ startTimeRef s' = startTimeRef s
  /\ sourceNodeRef s' = sourceNodeRef s
  /\ animationFrameRef s' = animationFrameRef s
  /\ toolMode s' = toolMode s
  /\ viewState s' = viewState s
  /\ (forall c, audioContext s = Some c -> audioContext s' = Some c)
  /\ (audioContext s' = audioContext s
      \/ (audioContext s = None /\ audioContext s' = Some new_AudioContext)).
Proof.
  intros s'. subst s'. unfold upload.
  destruct files as [[|file others]|];
    try (repeat split; auto; fail).
  destruct (N.lt_ge_cases (50 * 1024 * 1024) (size file)) as [Hbig | Hok].
  - pose proof (rejected_run new_AudioContext decodeAudio fileToBase64
                  analyzeAudioWithGemini s file others Hbig) as Hrun.
    unfold next. rewrite Hrun. cbn [fst].
    repeat split; auto.
  - destruct (accepted_upload_cases new_AudioContext decodeAudio fileToBase64
                analyzeAudioWithGemini s file others Hok)
      as (_ & _ & Hc & (H1 & H2 & H3 & H4 & H5 & H6 & H7) & _).
    repeat split; try assumption.
    + intros c Hsome. rewrite Hc, Hsome. reflexivity.
    + rewrite Hc. destruct (audioContext s); auto.
Qed.


End Collaborators.

End UploadOutcome.

Module UploadWitnesses.

Import Types Web AppState App Scenario UploadOutcome.
Local Open Scope string_scope.

Lemma upload_succeeds_witness :
  analysis (next (handleFileUpload {| state := running |} decode_ok base64_ok
                    analyze_ok (Some [small_file])) initial_state)
  = Some scenario_analysis
  /\ effects (handleFileUpload {| state := running |} decode_ok base64_ok
                analyze_ok (Some [small_file])) initial_state
     = [call_decodeAudio small_file; call_fileToBase64 small_file;
        call_analyzeAudioWithGemini "UklGRg==" "audio/mpeg"].
Proof.
  destruct (upload_succeeds {| state := running |} decode_ok base64_ok analyze_ok
              initial_state small_file [] {| state := running |}
              {| duration := 40 |} "UklGRg=="
              ["Enviando audio al motor neural de Gemini...";
               "Procesando resultados del análisis..."]
              scenario_analysis)
    as (Hres & _ & _ & _ & _ & _ & Hes); try reflexivity.
  - discriminate.
  - split; [exact Hres | exact Hes].
Defined.

Lemma upload_fails_witness :
  analysis (next (handleFileUpload {| state := running |} decode_ok
                    (fun _ => None) analyze_ok (Some [small_file]))
              initial_state) = None
  /\ fileName (next (handleFileUpload {| state := running |} decode_ok
                       (fun _ => None) analyze_ok (Some [small_file]))
                 initial_state) = Some "clip.mp3".
Proof.
  destruct (upload_fails {| state := running |} decode_ok (fun _ => None)
              analyze_ok initial_state small_file [] {| state := running |})
    as (Hres & _ & Hname & _).
  - discriminate.
  - reflexivity.
  - right. left. exists {| duration := 40 |}. split; reflexivity.
  - split; [exact Hres | exact Hname].
Defined.


End UploadWitnesses.

(* ------------------------------------------------------------------ *)
(** ** geminiService.ts: what the hydrated reply holds *)

Module Hydration.

Import GeminiService.
Local Open Scope string_scope.

(** Writing a property and reading it back. *)
Lemma lookup_assign_same (props : list (string * Value)) (k : string) (v : Value) :
  lookup (assign props k v) k = v.
Proof.
  unfold lookup. induction props as [|[k' v'] props IH]; cbn [assign List.find fst snd].
  - rewrite String.eqb_refl. reflexivity.
  - destruct (String.eqb k' k) eqn:E; cbn [List.find fst snd]; rewrite E.
    + reflexivity.
    + exact IH.
Qed.

Lemma lookup_assign_other (props : list (string * Value)) (k k' : string) (v : Value) :
  k' <> k -> lookup (assign props k v) k' = lookup props k'.
Proof.
  intros Hne. unfold lookup.
  induction props as [|[k0 v0] props IH]; cbn [assign List.find fst snd].
  - assert (E : String.eqb k k' = false).
    { apply String.eqb_neq. intros H. apply Hne. symmetry. exact H. }
    rewrite E. reflexivity.
  - destruct (String.eqb k0 k) eqn:E; cbn [List.find fst snd].
    + apply String.eqb_eq in E. subst k0.
      assert (E' : String.eqb k k' = false).
      { apply String.eqb_neq. intros H. apply Hne. symmetry. exact H. }
      rewrite E'. reflexivity.
    + destruct (String.eqb k0 k'); [reflexivity | exact IH].
Qed.

Lemma hydrate_from_nth (Date_now : nat -> N) (items : list Value) :
  forall (start i : nat) (v : Value),
    nth_error (hydrate_from Date_now start items) i = Some v ->
    exists n, nth_error items i = Some n /\ v = hydrate Date_now n (start + i).
Proof.
  induction items as [|n items IH]; intros start i v H.
  - destruct i; discriminate.
  - destruct i as [|i]; cbn [hydrate_from nth_error] in H.
    + injection H as <-. exists n. rewrite Nat.add_0_r. split; reflexivity.
    + destruct (IH (S start) i v H) as (n' & Hn' & ->).
      exists n'. split; [exact Hn'|]. f_equal. lia.
Qed.

(** The service's own identifier and flag are not trusted: whatever the
    note of the reply carries, the hydrated note has the identifier
    [note-<index>-<Date.now()>] and the flag [false], and every other
    property is the one of the reply. *)
Theorem hydrate_overrides_id_and_flag
    (Date_now : nat -> N) (n : Value) (index : nat) (k : string) :
  get (hydrate Date_now n index) "id"
  = Ok (str ("note-" ++ decimal (N.of_nat index) ++ "-" ++ decimal (Date_now index)))
  /\ get (hydrate Date_now n index) "selected" = Ok (boolean false)
  /\ (k <> "id" -> k <> "selected" ->
      get (hydrate Date_now n index) k = Ok (lookup (spread n) k)).
Proof.
  unfold hydrate. cbn [get]. split; [|split].
  - rewrite lookup_assign_other by discriminate.
    rewrite lookup_assign_same. reflexivity.
  - rewrite lookup_assign_same. reflexivity.
  - intros Hid Hsel. rewrite !lookup_assign_other by assumption. reflexivity.
Qed.

Lemma hydrate_overrides_id_and_flag_witness :
  get (hydrate (fun _ => 1700000000000%N)
         (object [("id", str "theirs"); ("selected", boolean true);
                  ("midi", number 60)]) 3) "id"
  = Ok (str "note-3-1700000000000")
  /\ get (hydrate (fun _ => 1700000000000%N)
            (object [("id", str "theirs"); ("selected", boolean true);
                     ("midi", number 60)]) 3) "midi"
     = Ok (number 60).
Proof.
  destruct (hydrate_overrides_id_and_flag (fun _ => 1700000000000%N)
              (object [("id", str "theirs"); ("selected", boolean true);
                       ("midi", number 60)]) 3 "midi") as (Hid & _ & Hrest).
  split; [exact Hid|]. rewrite Hrest by discriminate. reflexivity.
Defined.

End Hydration.

Module Identifiers.

Import GeminiService Hydration.
Local Open Scope string_scope.

Lemma decimal_inj (a b : N) : decimal a = decimal b -> a = b.
Proof.
  unfold decimal. intros H. apply DecimalN.Unsigned.to_uint_inj.
  apply (f_equal NilEmpty.uint_of_string) in H.
  rewrite !NilEmpty.usu in H. injection H as H. exact H.
Qed.

(** A printed natural number holds digits only. *)
Lemma no_dash_in_digits (d : Decimal.uint) :
  ~ In "-"%char (list_ascii_of_string (NilEmpty.string_of_uint d)).
Proof.
  induction d; cbn [NilEmpty.string_of_uint list_ascii_of_string In];
    intros H; try (destruct H as [H | H]; [discriminate | auto]); auto.
Qed.

Lemma split_at_dash (s1 s2 r1 r2 : string) :
  ~ In "-"%char (list_ascii_of_string s1) ->
  ~ In "-"%char (list_ascii_of_string s2) ->
  s1 ++ String "-"%char r1 = s2 ++ String "-"%char r2 ->
  s1 = s2.
Proof.
  revert s2. induction s1 as [|a s1 IH]; intros s2 H1 H2 E.
  - destruct s2 as [|c s2]; [reflexivity|].
    cbn in E. injection E as Ec _. exfalso. apply H2. left. symmetry. exact Ec.
  - destruct s2 as [|c s2].
    + cbn in E. injection E as Ea _. exfalso. apply H1. left. exact Ea.
    + cbn in E. injection E as Ea Et. subst c. f_equal.
      apply IH; [| | exact Et].
      * intros H. apply H1. right. exact H.
      * intros H. apply H2. right. exact H.
Qed.

(** The identifiers the service assigns are pairwise different, whatever
    the notes of the reply are and whatever the clock reads: two notes at
    different places of the reply never get the same identifier. *)
Theorem hydrated_ids_distinct
    (Date_now : nat -> N) (items : list Value) (i j : nat) (vi vj : Value) :
  i <> j ->
  nth_error (hydrate_from Date_now 0 items) i = Some vi ->
  nth_error (hydrate_from Date_now 0 items) j = Some vj ->
  get vi "id" <> get vj "id".
Proof.
  intros Hij Hi Hj E.
  destruct (hydrate_from_nth Date_now items 0 i vi Hi) as (ni & _ & ->).
  destruct (hydrate_from_nth Date_now items 0 j vj Hj) as (nj & _ & ->).
  destruct (hydrate_overrides_id_and_flag Date_now ni (0 + i) "id") as (Ei & _).
  destruct (hydrate_overrides_id_and_flag Date_now nj (0 + j) "id") as (Ej & _).
  rewrite Ei, Ej in E. cbn [Nat.add] in E.
  injection E as E.
  change ("-" ++ decimal (Date_now i))
    with (String "-"%char (decimal (Date_now i))) in E.
  change ("-" ++ decimal (Date_now j))
    with (String "-"%char (decimal (Date_now j))) in E.
  apply split_at_dash in E; try apply no_dash_in_digits.
  apply decimal_inj in E. apply Nat2N.inj in E. contradiction.
Qed.

Lemma hydrated_ids_distinct_witness :
  get (hydrate (fun _ => 5%N) (number 1) 0) "id"
  <> get (hydrate (fun _ => 5%N) (number 1) 1) "id".
Proof.
  apply (hydrated_ids_distinct (fun _ => 5%N) [number 1; number 1] 0 1).
  - discriminate.
  - reflexivity.
  - reflexivity.
Defined.

End Identifiers.

Module ReplySpec.

Import GeminiService Hydration GeminiSpec.
Local Open Scope string_scope.


Lemma build_ok (Date_now : nat -> N) (data : Value) (result : Analysis) :
  build Date_now data = Ok result ->
  exists props items,
    data = object props
    /\ lookup props "notes" = array items
    /\ result = {| key := or_else (lookup props "key") (str "Desconocido");
                   scale := or_else (lookup props "scale") (str "Desconocido");
                   bpm := or_else (lookup props "bpm") (number 120);
                   notes := hydrate_from Date_now 0 items |}.
Proof.
  intros H. unfold build, map_notes in H.
  destruct data; cbn [get] in H; try discriminate.
  destruct (lookup props "notes") eqn:En; try discriminate.
  injection H as <-. exists props, items. auto.
Qed.



(** Success needs every stage.  When the call succeeds, the API key was
    there, the model answered with a non-empty text, the text parsed to an
    object whose [notes] is an array, the result holds one hydrated note
    per note of the reply, and both progress messages were reported. *)
Theorem success_needs_every_stage
    (API_KEY : option string)
    (generateContent : string -> string -> option (option string))
    (JSON_parse : string -> option Value)
    (Date_now : nat -> N)
    (base64Audio mimeType : string) (result : Analysis) :
  snd (analyzeAudioWithGemini API_KEY generateContent JSON_parse Date_now
         base64Audio mimeType) = Ok result ->
  (exists k, API_KEY = Some k /\ k <> "")
  /\ (exists text props items,
        generateContent mimeType base64Audio = Some (Some text)
        /\ text <> ""
        /\ JSON_parse text = Some (object props)
        /\ lookup props "notes" = array items
        /\ notes result = hydrate_from Date_now 0 items
        /\ List.length (notes result) = List.length items)
  /\ fst (analyzeAudioWithGemini API_KEY generateContent JSON_parse Date_now
            base64Audio mimeType)
     = ["Enviando audio al motor neural de Gemini...";
        "Procesando resultados del análisis..."].
Proof.
  unfold analyzeAudioWithGemini, falsy_string.
  destruct API_KEY as [k|]; [|discriminate].
  destruct (String.eqb k "") eqn:Ek; [discriminate|].
  destruct (generateContent mimeType base64Audio) as [[text|]|];
    try discriminate.
  destruct (String.eqb text "") eqn:Et; [discriminate|].
  destruct (JSON_parse text) as [data|] eqn:Hparse; [|discriminate].
  cbn [snd fst]. intros Hbuild.
  destruct (build_ok Date_now data result Hbuild) as (props & items & -> & Hn & ->).
  apply String.eqb_neq in Ek, Et.
  split; [exists k; auto|]. split; [|reflexivity].
  exists text, props, items. cbn [notes].
  repeat split; auto. apply hydrate_from_length.
Qed.

Lemma success_needs_every_stage_witness :
  fst (analyzeAudioWithGemini (Some "k") Scenario.model_answers
         (Scenario.reply_with (object [("notes", array [])]))
         (fun _ => 0%N) "UklGRg==" "audio/mpeg")
  = ["Enviando audio al motor neural de Gemini...";
     "Procesando resultados del análisis..."].
Proof.
  apply (success_needs_every_stage (Some "k") Scenario.model_answers
           (Scenario.reply_with (object [("notes", array [])]))
           (fun _ => 0%N) "UklGRg==" "audio/mpeg"
           {| key := str "Desconocido"; scale := str "Desconocido";
              bpm := number 120; notes := [] |}).
  vm_compute. reflexivity.
Defined.

End ReplySpec.

(* ------------------------------------------------------------------ *)
(** ** Toolbar.tsx: the clock *)

Module Clockface.

Import Toolbar.
Local Open Scope string_scope.

Lemma floor_unique (x : Q) (z : Z) :
  inject_Z z <= x -> x < inject_Z z + 1 -> Qfloor x = z.
Proof.
  intros Hl Hu.
  pose proof (Qfloor_le x) as Fl. pose proof (Qlt_floor x) as Fu.
  rewrite inject_Z_plus in Fu. change (inject_Z 1) with 1 in Fu.
  assert (A : inject_Z (Qfloor x) < inject_Z (z + 1)).
  { rewrite inject_Z_plus. change (inject_Z 1) with 1. lra. }
  assert (B : inject_Z z < inject_Z (Qfloor x + 1)).
  { rewrite inject_Z_plus. change (inject_Z 1) with 1. lra. }
  rewrite <- Zlt_Qlt in A, B. lia.
Qed.

Lemma floor_bounds (x : Q) :
  inject_Z (Qfloor x) <= x /\ x < inject_Z (Qfloor x) + 1.
Proof.
  pose proof (Qfloor_le x) as Fl. pose proof (Qlt_floor x) as Fu.
  rewrite inject_Z_plus in Fu. change (inject_Z 1) with 1 in Fu. auto.
Qed.

Lemma trunc_nonneg (x : Q) : 0 <= x -> Js.trunc x = Qfloor x.
Proof.
  intros H. unfold Js.trunc. apply Qle_bool_iff in H. rewrite H. reflexivity.
Qed.

Lemma length_append (a b : string) :
  String.length (a ++ b) = (String.length a + String.length b)%nat.
Proof. induction a as [|c a IH]; cbn; [reflexivity | rewrite IH; reflexivity]. Qed.

Lemma two_digits_length (z : Z) :
  (0 <= z < 100)%Z -> String.length (two_digits z) = 2%nat.
Proof.
  intros Hz.
  assert (Hall : forallb (fun k => Nat.eqb (String.length (two_digits (Z.of_nat k))) 2)
                   (seq 0 100) = true) by (vm_compute; reflexivity).
  rewrite forallb_forall in Hall.
  specialize (Hall (Z.to_nat z)).
  rewrite Z2Nat.id in Hall by lia.
  apply Nat.eqb_eq. apply Hall. apply in_seq. lia.
Qed.

(** The clock shows the position cut down to hundredths of a second.  For
    a time that is not negative: the seconds field is from 0 to 59 and the
    hundredths field from 0 to 99, the three fields stand for a time that
    is at most the given one and less than a hundredth of a second below
    it, and below 100 minutes the text has the eight characters of
    [mm:ss.cc]. *)
Theorem clock_shows_hundredths (time : Q) :
  0 <= time ->
  (0 <= minutes time)%Z
  /\ (0 <= seconds time < 60)%Z
  /\ (0 <= hundredths time < 100)%Z
  /\ 60 * inject_Z (minutes time) + inject_Z (seconds time)
     + inject_Z (hundredths time) / 100 <= time
  /\ time < 60 * inject_Z (minutes time) + inject_Z (seconds time)
            + (inject_Z (hundredths time) + 1) / 100
  /\ (time < 6000 -> String.length (formatTime time) = 8%nat).
Proof.
  intros Htime.
  (* minutes *)
  assert (Hq : 0 <= time / 60).
  { unfold Qdiv. change (/ 60) with (1 # 60). lra. }
  destruct (floor_bounds (time / 60)) as (Ml & Mu).
  change (Qfloor (time / 60)) with (minutes time) in Ml, Mu.
  unfold Qdiv in Ml, Mu. change (/ 60) with (1 # 60) in Ml, Mu.
  assert (Hm : (0 <= minutes time)%Z).
  { unfold minutes, Js.floor. change 0%Z with (Qfloor 0).
    apply Qfloor_resp_le. exact Hq. }
  (* seconds *)
  assert (Hr60 : Js.rem time 60 == time - 60 * inject_Z (minutes time)).
  { unfold Js.rem, minutes, Js.floor. rewrite (trunc_nonneg _ Hq). reflexivity. }
  destruct (floor_bounds (Js.rem time 60)) as (Sl & Su).
  change (Qfloor (Js.rem time 60)) with (seconds time) in Sl, Su.
  rewrite Hr60 in Sl, Su.
  assert (Hs : (0 <= seconds time < 60)%Z).
  { assert (A : inject_Z (-1) < inject_Z (seconds time)).
    { change (inject_Z (-1)) with (-1). lra. }
    assert (B : inject_Z (seconds time) < inject_Z 60).
    { change (inject_Z 60) with 60. lra. }
    rewrite <- Zlt_Qlt in A, B. lia. }
  (* hundredths *)
  assert (Hwhole : Qfloor time = (60 * minutes time + seconds time)%Z).
  { apply floor_unique; rewrite inject_Z_plus, inject_Z_mult;
      change (inject_Z 60) with 60; lra. }
  assert (Hone : 0 <= time / 1).
  { unfold Qdiv. change (/ 1) with 1. lra. }
  assert (Hr1 : Js.rem time 1
                == time - 60 * inject_Z (minutes time) - inject_Z (seconds time)).
  { unfold Js.rem. rewrite (trunc_nonneg _ Hone).
    assert (E : Qfloor (time / 1) = Qfloor time).
    { apply Qfloor_comp. unfold Qdiv. change (/ 1) with 1. ring. }
    rewrite E, Hwhole, inject_Z_plus, inject_Z_mult.
    change (inject_Z 60) with 60. ring. }
  destruct (floor_bounds (Js.rem time 1 * 100)) as (Cl & Cu).
  change (Qfloor (Js.rem time 1 * 100)) with (hundredths time) in Cl, Cu.
  rewrite Hr1 in Cl, Cu.
  assert (Hc : (0 <= hundredths time < 100)%Z).
  { assert (A : inject_Z (-1) < inject_Z (hundredths time)).
    { change (inject_Z (-1)) with (-1). lra. }
    assert (B : inject_Z (hundredths time) < inject_Z 100).
    { change (inject_Z 100) with 100. lra. }
    rewrite <- Zlt_Qlt in A, B. lia. }
  split; [exact Hm|]. split; [exact Hs|]. split; [exact Hc|].
  unfold Qdiv. change (/ 100) with (1 # 100).
  split; [lra|]. split; [lra|].
  intros Hshort.
  assert (Hm100 : (minutes time < 100)%Z).
  { assert (B : inject_Z (minutes time) < inject_Z 100).
    { change (inject_Z 100) with 100. lra. }
    rewrite <- Zlt_Qlt in B. exact B. }
  unfold formatTime. rewrite !length_append.
  rewrite !two_digits_length by lia. reflexivity.
Qed.

Lemma clock_shows_hundredths_witness :
  formatTime (12529 # 100) = "02:05.29"
  /\ String.length (formatTime (12529 # 100)) = 8%nat.
Proof.
  split; [reflexivity|].
  destruct (clock_shows_hundredths (12529 # 100)) as (_ & _ & _ & _ & _ & Hlen);
    [discriminate|].
  apply Hlen. reflexivity.
Defined.

End Clockface.
